(** * step-3 of dealii-cdr: the distributed convection-diffusion-reaction driver

    A shallow embedding of [src/step-3/step-3.cc]: the class [CDRProblem<dim>]
    with its constructor, [setup_geometry], [setup_matrices], [time_iterate]
    and [run].  The program is a thin driver over deal.II, Trilinos and the
    assemblers of [common/]; those collaborators are an interface here
    ([Arith] for double arithmetic, [Backend] for the library calls), and
    the calls whose order, number and arguments matter (assemblies, time
    advances, solver calls, file output) are logged as [Event]s. *)

From Stdlib Require Import ZArith List String Ascii Bool Lia.
From Stdlib Require Import QArith Qcanon.
From Stdlib Require Import Floats Uint63.
Import ListNotations.

Local Open Scope string_scope.
Local Open Scope Z_scope.

(** ** Machine integers *)

(** [std::size_t] on the 64-bit targets deal.II supports. *)
Definition size_t_modulus : Z := 2 ^ 64.

Definition size_t_wrap (z : Z) : Z := z mod size_t_modulus.

(** [std::string::npos], i.e. [static_cast<size_t>(-1)]. *)
Definition npos : Z := size_t_modulus - 1.

(** [unsigned int]. *)
Definition uint_modulus : Z := 2 ^ 32.

Definition uint_wrap (z : Z) : Z := z mod uint_modulus.

Definition is_uint (z : Z) : Prop := 0 <= z < uint_modulus.

(** [numbers::invalid_unsigned_int], the default [digits] argument of
    [Utilities::int_to_string]. *)
Definition invalid_unsigned_int : Z := uint_modulus - 1.

(** [numbers::flat_manifold_id], the manifold id every freshly generated cell
    and face carries. *)
Definition flat_manifold_id : Z := uint_modulus - 1.

(** [constexpr int manifold_id {0};] *)
Definition manifold_id : Z := 0.

(** ** [std::string] *)

Definition size (s : string) : Z := Z.of_nat (String.length s).

Fixpoint find_from (c : ascii) (s : string) (i : Z) : Z :=
  match s with
  | EmptyString => npos
  | String a s' => if Ascii.eqb a c then i else find_from c s' (i + 1)
  end.

(** [s.find_first_of(",")] for a one-character set: the index of the first
    occurrence, [npos] when there is none. *)
Definition find_first_of (s : string) (c : ascii) : Z := find_from c s 0.

Fixpoint drop (n : nat) (s : string) : string :=
  match n, s with
  | O, _ => s
  | S n', String _ s' => drop n' s'
  | S _, EmptyString => EmptyString
  end.

Fixpoint take (n : nat) (s : string) : string :=
  match n, s with
  | S n', String a s' => String a (take n' s')
  | _, _ => EmptyString
  end.

(** Exceptions and faults that end the run. *)
Inductive Exception : Type :=
| ExcNotImplemented
| std_out_of_range
| ExcInvalidExpressionSize
| ExcParseError
| NoConvergence
| DivisionByZero.

(** How a piece of the program ends: normally, by an uncaught exception, or
    (for the loops of the model only) by running out of fuel. *)
Inductive Result (A : Type) : Type :=
| Ok (a : A)
| Abort (e : Exception)
| OutOfFuel.

Arguments Ok {A} a.
Arguments Abort {A} e.
Arguments OutOfFuel {A}.

(** [s.substr(pos, n)]: throws [std::out_of_range] when [pos > size()],
    otherwise the characters [pos, min(pos + n, size())). *)
Definition substr (s : string) (pos n : Z) : Result string :=
  if size s <? pos then Abort std_out_of_range
  else Ok (take (Z.to_nat (Z.min n (size s - pos))) (drop (Z.to_nat pos) s)).

(** ** [Utilities::int_to_string] *)

Definition digit_char (d : Z) : ascii := ascii_of_nat (48 + Z.to_nat d).

Fixpoint decimal_digits (fuel : nat) (i : Z) (acc : string) : string :=
  match fuel with
  | O => acc
  | S fuel' =>
      let acc' := String (digit_char (i mod 10)) acc in
      if i <? 10 then acc' else decimal_digits fuel' (i / 10) acc'
  end.

(** The decimal representation of an [unsigned int] (at most ten digits). *)
Definition lexical_cast (i : Z) : string := decimal_digits 10 i EmptyString.

Fixpoint zeros (n : nat) : string :=
  match n with
  | O => EmptyString
  | S n' => String "0" (zeros n')
  end.

(** [Utilities::int_to_string(i, digits)]: the decimal representation,
    filled with leading zeros up to [digits] characters; no padding when
    [digits] is [numbers::invalid_unsigned_int]. *)
Definition int_to_string (i : Z) (digits : Z) : string :=
  let s := lexical_cast i in
  if digits =? invalid_unsigned_int then s
  else if size s <? digits then zeros (Z.to_nat (digits - size s)) ++ s
  else s.

(** ** Double arithmetic *)

(** The [double] operations the driver uses.  They stay an interface: the
    driver never branches on a [double], so every property of its control
    flow holds for IEEE arithmetic and for exact arithmetic alike. *)
Class Arith : Type := {
  double : Type;
  d_of_uint : Z -> double;
  d_zero : double;
  d_1em6 : double;
  d_pi : double;
  dadd : double -> double -> double;
  dsub : double -> double -> double;
  dmul : double -> double -> double;
  ddiv : double -> double -> double
}.

(** Exact rational arithmetic, the idealisation of [double]; [355/113]
    stands for the constant [numbers::PI], which the driver only passes
    on. *)
#[export] Instance Qc_arith : Arith := {|
  double := Qc;
  d_of_uint := fun z => Q2Qc (inject_Z z);
  d_zero := Q2Qc 0;
  d_1em6 := Q2Qc (1 # 1000000);
  d_pi := Q2Qc (355 # 113);
  dadd := Qcplus;
  dsub := Qcminus;
  dmul := Qcmult;
  ddiv := Qcdiv
|}.

(** IEEE binary64 arithmetic, what [double] is on the machine. *)
Definition binary64_arith : Arith := {|
  double := float;
  d_of_uint := fun z => PrimFloat.of_uint63 (Uint63.of_Z z);
  d_zero := 0%float;
  d_1em6 := 0x1.0c6f7a0b5ed8dp-20%float;
  d_pi := 0x1.921fb54442d18p+1%float;
  dadd := PrimFloat.add;
  dsub := PrimFloat.sub;
  dmul := PrimFloat.mul;
  ddiv := PrimFloat.div
|}.

(** ** Mesh *)

(** A face (a line in 2D) is an object of the triangulation that the cells
    on both of its sides refer to: cells name their faces by index into the
    triangulation's face store. *)
Record Face : Type := {
  face_at_boundary : bool;
  face_manifold_id : Z
}.

Record Cell : Type := {
  cell_active : bool;
  cell_manifold_id : Z;
  cell_faces : list nat
}.

(** [parallel::distributed::Triangulation<dim>], as far as the driver reads
    or writes it. *)
Record Triangulation : Type := {
  locally_owned_subdomain : Z;
  manifolds : list Z;
  tria_faces : list Face;
  tria_cells : list Cell
}.

(** The triangulation the constructor builds: no cells yet, owned by the
    calling process of the communicator. *)
Definition empty_triangulation (this_mpi_process : Z) : Triangulation :=
  {| locally_owned_subdomain := this_mpi_process;
     manifolds := [];
     tria_faces := [];
     tria_cells := [] |}.

(** [triangulation.set_manifold(id, description)]. *)
Definition set_manifold (id : Z) (t : Triangulation) : Triangulation :=
  {| locally_owned_subdomain := locally_owned_subdomain t;
     manifolds := id :: manifolds t;
     tria_faces := tria_faces t;
     tria_cells := tria_cells t |}.

Definition face_set_manifold_id (m : Z) (f : Face) : Face :=
  {| face_at_boundary := face_at_boundary f; face_manifold_id := m |}.

(** Assignment through a face iterator: the face stored at index [i] is
    changed in place; the cells of the mesh only name valid faces. *)
Fixpoint update_face (i : nat) (g : Face -> Face) (fs : list Face)
  {struct fs} : list Face :=
  match fs, i with
  | [], _ => []
  | f :: fs', O => g f :: fs'
  | f :: fs', S i' => f :: update_face i' g fs'
  end.

(** The loop of [set_all_manifold_ids] over the bounding lines of a cell. *)
Fixpoint set_lines_manifold_id (m : Z) (lines : list nat) (fs : list Face)
  : list Face :=
  match lines with
  | [] => fs
  | i :: lines' =>
      set_lines_manifold_id m lines' (update_face i (face_set_manifold_id m) fs)
  end.

(** [cell->set_all_manifold_ids(m)] for a cell without children in 2D: the
    cell itself and each of its bounding lines get manifold id [m]. *)
Definition set_all_manifold_ids (m : Z) (c : Cell) (fs : list Face)
  : Cell * list Face :=
  ({| cell_active := cell_active c;
      cell_manifold_id := m;
      cell_faces := cell_faces c |},
   set_lines_manifold_id m (cell_faces c) fs).

(** [for (const auto &cell : triangulation.active_cell_iterators())
       cell->set_all_manifold_ids(0);] *)
Fixpoint tag_active_cells (cells : list Cell) (fs : list Face)
  : list Cell * list Face :=
  match cells with
  | [] => ([], fs)
  | c :: cells' =>
      let (c', fs') :=
        if cell_active c then set_all_manifold_ids 0 c fs else (c, fs) in
      let (cs'', fs'') := tag_active_cells cells' fs' in
      (c' :: cs'', fs'')
  end.

Definition tag_manifold_ids (t : Triangulation) : Triangulation :=
  let (cs, fs) := tag_active_cells (tria_cells t) (tria_faces t) in
  {| locally_owned_subdomain := locally_owned_subdomain t;
     manifolds := manifolds t;
     tria_faces := fs;
     tria_cells := cs |}.

Definition n_active_cells (t : Triangulation) : nat :=
  List.length (filter cell_active (tria_cells t)).

(** The faces an active cell of the triangulation refers to. *)
Definition face_of_active_cell (t : Triangulation) (i : nat) : Prop :=
  exists c, In c (tria_cells t) /\ cell_active c = true /\ In i (cell_faces c).

(** ** Vectors *)

(** [IndexSet]: the global DoF indices stored on this process. *)
Definition IndexSet : Type := list Z.

Section Program.

Context {A : Arith}.

(** [TrilinosWrappers::MPI::Vector]: the locally stored entries, by global
    index. *)
Definition Vector : Type := list (Z * double).

(** [v.reinit(index_set, communicator)]: a vector over [index_set] with all
    entries zero. *)
Definition vector_reinit (idx : IndexSet) : Vector :=
  map (fun i => (i, d_zero)) idx.

(** [v = 0.0]. *)
Definition vector_set_zero (v : Vector) : Vector :=
  map (fun e => (fst e, d_zero)) v.

Definition identically_zero (v : Vector) : Prop :=
  Forall (fun e => snd e = d_zero) v.

(** ** Run configuration *)

(** Modelled from the spec: [CDR::Parameters] is declared in
    [common/parameters.h], which is not among the sources.  The fields are
    those of the spec's configuration record, in the order of the
    initialiser in [main]; the counts are [unsigned int]. *)
Record Parameters : Type := {
  inner_radius : double;
  outer_radius : double;
  diffusion_coefficient : double;
  convection_field : string;
  reaction_coefficient : double;
  forcing : string;
  time_dependent_forcing : bool;
  refinement_level : Z;
  fe_order : Z;
  start_time : double;
  stop_time : double;
  n_time_steps : Z;
  save_interval : Z;
  patch_level : Z
}.

(** [DoFHandler<dim>] after [initialize(triangulation, fe)]. *)
Record DoFHandler : Type := {
  dh_triangulation : Triangulation;
  dh_fe_degree : Z
}.

(** [FunctionParser<dim>]: the expressions it was initialised with and the
    time of its [FunctionTime] base. *)
Record FunctionParser : Type := {
  fp_n_components : Z;
  fp_expressions : list string;
  fp_time : double
}.

Definition set_time (t : double) (f : FunctionParser) : FunctionParser :=
  {| fp_n_components := fp_n_components f;
     fp_expressions := fp_expressions f;
     fp_time := t |}.

(** [FunctionTime::advance_time(delta_t)]: [set_time(time + delta_t)]. *)
Definition advance_time (delta_t : double) (f : FunctionParser)
  : FunctionParser :=
  set_time (dadd (fp_time f) delta_t) f.

End Program.

(** ** The collaborators *)

(** What the driver calls and does not define: deal.II (mesh generation and
    refinement, DoF numbering, constraints, sparsity), muparser behind
    [FunctionParser], Trilinos (matrices, GMRES, AMG, ghost exchange) and the
    two assemblers of [common/system_matrix.h] and [common/system_rhs.h].
    Each is a function of exactly the arguments the driver passes. *)
Class Backend (A : Arith) : Type := {
  Matrix : Type;
  Preconditioner : Type;
  ConstraintMatrix : Type;
  DynamicSparsityPattern : Type;
  empty_matrix : Matrix;
  empty_preconditioner : Preconditioner;
  empty_constraints : ConstraintMatrix;
  (* muparser: does [expression] parse over the variables and constants? *)
  parses : string -> list string -> string -> bool;
  (* GridGenerator::hyper_shell and Triangulation::refine_global *)
  hyper_shell : double -> double -> list Cell * list Face;
  refine_global : Z -> list Cell * list Face -> list Cell * list Face;
  (* DoFHandler, DoFTools *)
  n_dofs : DoFHandler -> Z;
  dh_locally_owned_dofs : DoFHandler -> IndexSet;
  extract_locally_relevant_dofs : DoFHandler -> IndexSet;
  (* ConstraintMatrix *)
  constraints_reinit : IndexSet -> ConstraintMatrix;
  make_hanging_node_constraints :
    DoFHandler -> ConstraintMatrix -> ConstraintMatrix;
  interpolate_boundary_values :
    DoFHandler -> Z -> ConstraintMatrix -> ConstraintMatrix;
  constraints_close : ConstraintMatrix -> ConstraintMatrix;
  constraints_distribute : ConstraintMatrix -> Vector -> Vector;
  (* sparsity *)
  make_sparsity_pattern :
    DoFHandler -> IndexSet -> ConstraintMatrix -> DynamicSparsityPattern;
  distribute_sparsity_pattern :
    DynamicSparsityPattern -> DoFHandler -> IndexSet -> DynamicSparsityPattern;
  (* TrilinosWrappers *)
  matrix_reinit : IndexSet -> DynamicSparsityPattern -> Matrix;
  matrix_compress : Matrix -> Matrix;
  preconditioner_initialize : Matrix -> Preconditioner;
  vector_compress : Vector -> Vector;
  l2_norm : Vector -> double;
  ghost_assign : Vector -> Vector -> Vector;
  (* SolverGMRES::solve: [None] is SolverControl::NoConvergence *)
  gmres_solve :
    Z -> double -> Matrix -> Vector -> Vector -> Preconditioner ->
    option Vector;
  (* CDR::create_system_matrix, CDR::create_system_rhs *)
  create_system_matrix :
    DoFHandler -> Z -> FunctionParser -> Parameters -> double ->
    ConstraintMatrix -> Matrix -> Matrix;
  create_system_rhs :
    DoFHandler -> Z -> FunctionParser -> FunctionParser -> Parameters ->
    Vector -> ConstraintMatrix -> Vector -> Vector
}.

Section Driver.

Context {A : Arith} {B : Backend A}.

(** ** Observable calls *)

Inductive Event : Type :=
| EvCreateSystemMatrix (time_step : double) (assembled : Matrix)
| EvPreconditionerInitialize (matrix : Matrix)
| EvAdvanceTime (time_step_n : Z) (delta_t : double)
| EvCreateSystemRhs (time_step_n : Z) (forcing_time : double)
    (previous_solution : Vector) (assembled : Vector)
| EvSolve (time_step_n : Z) (max_steps : Z) (tolerance : double)
    (matrix : Matrix) (rhs : Vector)
| EvWriteVtu (time_step_n : Z) (file : string) (u : Vector)
    (subdomain : list Z)
| EvWritePvtu (time_step_n : Z) (file : string) (filenames : list string).

(** A computation: the calls it logged, and how it ended. *)
Definition Run (T : Type) : Type := list Event * Result T.

Definition ret {T} (x : T) : Run T := ([], Ok x).

Definition throw {T} (e : Exception) : Run T := ([], Abort e).

Definition emit (ev : Event) : Run unit := ([ev], Ok tt).

Definition lift {T} (r : Result T) : Run T := ([], r).

Definition bind {T U} (m : Run T) (k : T -> Run U) : Run U :=
  match m with
  | (tr, Ok x) => let (tr', r) := k x in ((tr ++ tr')%list, r)
  | (tr, Abort e) => (tr, Abort e)
  | (tr, OutOfFuel) => (tr, OutOfFuel)
  end.

Definition trace {T} (m : Run T) : list Event := fst m.

Definition outcome {T} (m : Run T) : Result T := snd m.

End Driver.

Declare Scope run_scope.
Delimit Scope run_scope with run.
Notation "x <- m ;; k" := (bind m (fun x => k))
  (at level 61, m at next level, right associativity) : run_scope.
Notation "m ;; k" := (bind m (fun _ => k))
  (at level 61, right associativity) : run_scope.

Local Open Scope run_scope.

Section Problem.

Context {A : Arith} {B : Backend A}.

(** ** [class CDRProblem] *)

Record CDRProblem : Type := {
  parameters : Parameters;
  time_step : double;
  n_mpi_processes : Z;
  this_mpi_process : Z;
  fe : Z;
  quad : Z;
  triangulation : Triangulation;
  dof_handler : DoFHandler;
  locally_owned_dofs : IndexSet;
  locally_relevant_dofs : IndexSet;
  parser_constants : list (string * double);
  convection_function : FunctionParser;
  forcing_function : FunctionParser;
  constraints : ConstraintMatrix;
  locally_relevant_solution : Vector;
  system_rhs : Vector;
  system_matrix : Matrix;
  preconditioner : Preconditioner
}.

(** deal.II's [Assert(cond, exc)], as it behaves where assertions are
    checked (the library's debug configuration): the run is aborted with
    [exc] when [cond] is false. *)
Definition Assert (cond : bool) (exc : Exception) : Run unit :=
  if cond then ret tt else throw exc.

(** [FunctionParser::initialize(vars, expressions, constants, time_dependent)]:
    the number of expressions has to be the number of components, and every
    expression has to parse. *)
Definition fp_initialize (vars : string) (expressions : list string)
    (constants : list (string * double)) (f : FunctionParser)
  : Run FunctionParser :=
  if negb (Z.of_nat (List.length expressions) =? fp_n_components f)
  then throw ExcInvalidExpressionSize
  else if forallb (parses vars (map fst constants)) expressions
  then ret {| fp_n_components := fp_n_components f;
              fp_expressions := expressions;
              fp_time := fp_time f |}
  else throw ExcParseError.

(** The two clauses the constructor cuts [parameters.convection_field] into:
    [substr(0, find_first_of(","))] and [substr(find_first_of(",") + 1)]. *)
Definition split_convection_field (s : string) : Run (list string) :=
  first <- lift (substr s 0 (find_first_of s ",")) ;;
  second <- lift (substr s (size_t_wrap (find_first_of s "," + 1)) npos) ;;
  ret [first; second].

(** [CDRProblem<dim>::CDRProblem(parameters)], run by process
    [this_mpi_process] of the [n_mpi_processes] of [MPI_COMM_WORLD]. *)
Definition CDRProblem_ctor (dim : Z) (n_mpi_processes this_mpi_process : Z)
    (parameters : Parameters) : Run CDRProblem :=
  let time_step :=
    ddiv (dsub (stop_time parameters) (start_time parameters))
         (d_of_uint (n_time_steps parameters)) in
  let fe := fe_order parameters in
  let quad := uint_wrap (3 * uint_wrap (2 + fe_order parameters)) / 2 in
  let triangulation := empty_triangulation this_mpi_process in
  let convection_function :=
    {| fp_n_components := dim; fp_expressions := []; fp_time := d_zero |} in
  let forcing_function :=
    {| fp_n_components := 1; fp_expressions := []; fp_time := d_zero |} in
  Assert (dim =? 2) ExcNotImplemented ;;
  let parser_constants := [("pi", d_pi)] in
  convection_field <- split_convection_field (convection_field parameters) ;;
  convection_function <-
    fp_initialize "x,y" convection_field parser_constants
                  convection_function ;;
  forcing_function <-
    fp_initialize "x,y,t" [forcing parameters] parser_constants
                  forcing_function ;;
  let forcing_function := set_time (start_time parameters) forcing_function in
  ret {| parameters := parameters;
         time_step := time_step;
         n_mpi_processes := n_mpi_processes;
         this_mpi_process := this_mpi_process;
         fe := fe;
         quad := quad;
         triangulation := triangulation;
         dof_handler :=
           {| dh_triangulation := triangulation; dh_fe_degree := 0 |};
         locally_owned_dofs := [];
         locally_relevant_dofs := [];
         parser_constants := parser_constants;
         convection_function := convection_function;
         forcing_function := forcing_function;
         constraints := empty_constraints;
         locally_relevant_solution := [];
         system_rhs := [];
         system_matrix := empty_matrix;
         preconditioner := empty_preconditioner |}.

(** ** [setup_geometry] *)

Definition with_mesh (m : list Cell * list Face) (t : Triangulation)
  : Triangulation :=
  {| locally_owned_subdomain := locally_owned_subdomain t;
     manifolds := manifolds t;
     tria_faces := snd m;
     tria_cells := fst m |}.

Definition mesh_of (t : Triangulation) : list Cell * list Face :=
  (tria_cells t, tria_faces t).

(** The triangulation right after the loop over the active cells, before
    [refine_global]. *)
Definition tagged_coarse_mesh (p : CDRProblem) : Triangulation :=
  let triangulation :=
    with_mesh (hyper_shell (inner_radius (parameters p))
                           (outer_radius (parameters p)))
              (triangulation p) in
  let triangulation := set_manifold manifold_id triangulation in
  tag_manifold_ids triangulation.

(** The triangulation after [refine_global(parameters.refinement_level)]. *)
Definition refined_mesh (p : CDRProblem) : Triangulation :=
  let triangulation := tagged_coarse_mesh p in
  with_mesh (refine_global (refinement_level (parameters p))
                           (mesh_of triangulation))
            triangulation.

Definition setup_geometry (p : CDRProblem) : Run CDRProblem :=
  let triangulation := refined_mesh p in
  let dof_handler :=
    {| dh_triangulation := triangulation; dh_fe_degree := fe p |} in
  let locally_owned_dofs := dh_locally_owned_dofs dof_handler in
  let locally_relevant_dofs := extract_locally_relevant_dofs dof_handler in
  let locally_relevant_solution := vector_reinit locally_relevant_dofs in
  ret {| parameters := parameters p;
         time_step := time_step p;
         n_mpi_processes := n_mpi_processes p;
         this_mpi_process := this_mpi_process p;
         fe := fe p;
         quad := quad p;
         triangulation := triangulation;
         dof_handler := dof_handler;
         locally_owned_dofs := locally_owned_dofs;
         locally_relevant_dofs := locally_relevant_dofs;
         parser_constants := parser_constants p;
         convection_function := convection_function p;
         forcing_function := forcing_function p;
         constraints := constraints p;
         locally_relevant_solution := locally_relevant_solution;
         system_rhs := system_rhs p;
         system_matrix := system_matrix p;
         preconditioner := preconditioner p |}.

(** ** [setup_matrices] *)

Definition setup_matrices (p : CDRProblem) : Run CDRProblem :=
  let constraints := constraints_reinit (locally_relevant_dofs p) in
  let constraints :=
    make_hanging_node_constraints (dof_handler p) constraints in
  let constraints :=
    interpolate_boundary_values (dof_handler p) 0 constraints in
  let constraints := constraints_close constraints in
  let dynamic_sparsity_pattern :=
    make_sparsity_pattern (dof_handler p) (locally_relevant_dofs p)
                          constraints in
  let dynamic_sparsity_pattern :=
    distribute_sparsity_pattern dynamic_sparsity_pattern (dof_handler p)
                                (locally_relevant_dofs p) in
  let system_rhs := vector_reinit (locally_owned_dofs p) in
  let system_matrix :=
    matrix_reinit (locally_owned_dofs p) dynamic_sparsity_pattern in
  let system_matrix :=
    create_system_matrix (dof_handler p) (quad p) (convection_function p)
                         (parameters p) (time_step p) constraints
                         system_matrix in
  emit (EvCreateSystemMatrix (time_step p) system_matrix) ;;
  let system_matrix := matrix_compress system_matrix in
  let preconditioner := preconditioner_initialize system_matrix in
  emit (EvPreconditionerInitialize system_matrix) ;;
  ret {| parameters := parameters p;
         time_step := time_step p;
         n_mpi_processes := n_mpi_processes p;
         this_mpi_process := this_mpi_process p;
         fe := fe p;
         quad := quad p;
         triangulation := triangulation p;
         dof_handler := dof_handler p;
         locally_owned_dofs := locally_owned_dofs p;
         locally_relevant_dofs := locally_relevant_dofs p;
         parser_constants := parser_constants p;
         convection_function := convection_function p;
         forcing_function := forcing_function p;
         constraints := constraints;
         locally_relevant_solution := locally_relevant_solution p;
         system_rhs := system_rhs;
         system_matrix := system_matrix;
         preconditioner := preconditioner |}.

End Problem.

Section TimeLoop.

Context {A : Arith} {B : Backend A}.

(** ** [time_iterate] *)

(** The values [0, 1, ..., n - 1] an [unsigned int] counter takes in
    [for (unsigned int i = 0; i < n; ++i)]. *)
Definition uint_range (n : Z) : list Z := map Z.of_nat (seq 0 (Z.to_nat n)).

(** The stem of the names of this step's files:
    ["solution-" + Utilities::int_to_string(time_step_n)]. *)
Definition step_stem (time_step_n : Z) : string :=
  "solution-" ++ int_to_string time_step_n invalid_unsigned_int.

(** The name of the entry of process [i] in the record file. *)
Definition piece_name (time_step_n i : Z) : string :=
  step_stem time_step_n ++ "." ++ int_to_string i 4 ++ ".vtu".

(** The body of [if (time_step_n % parameters.save_interval == 0)]. *)
Definition write_checkpoint (time_step_n : Z) (p : CDRProblem) : Run unit :=
  let subdomain :=
    repeat (locally_owned_subdomain (triangulation p))
           (n_active_cells (triangulation p)) in
  let filename :=
    step_stem time_step_n ++ "."
      ++ int_to_string (locally_owned_subdomain (triangulation p)) 4 in
  emit (EvWriteVtu time_step_n (filename ++ ".vtu")
                   (locally_relevant_solution p) subdomain) ;;
  if this_mpi_process p =? 0 then
    let filenames :=
      map (piece_name time_step_n) (uint_range (n_mpi_processes p)) in
    emit (EvWritePvtu time_step_n (step_stem time_step_n ++ ".pvtu")
                      filenames)
  else ret tt.

(** One pass through the body of the time loop.  The result is the problem
    and the local [completely_distributed_solution] after the pass. *)
Definition time_step_body (time_step_n : Z)
    (completely_distributed_solution : Vector) (p : CDRProblem)
  : Run (Vector * CDRProblem) :=
  let forcing_function := advance_time (time_step p) (forcing_function p) in
  emit (EvAdvanceTime time_step_n (time_step p)) ;;
  let system_rhs := vector_set_zero (system_rhs p) in
  let system_rhs :=
    create_system_rhs (dof_handler p) (quad p) (convection_function p)
                      forcing_function (parameters p)
                      (locally_relevant_solution p) (constraints p)
                      system_rhs in
  emit (EvCreateSystemRhs time_step_n (fp_time forcing_function)
                          (locally_relevant_solution p) system_rhs) ;;
  let system_rhs := vector_compress system_rhs in
  let max_steps := n_dofs (dof_handler p) in
  let tolerance := dmul d_1em6 (l2_norm system_rhs) in
  emit (EvSolve time_step_n max_steps tolerance (system_matrix p)
                system_rhs) ;;
  match gmres_solve max_steps tolerance (system_matrix p)
                    completely_distributed_solution system_rhs
                    (preconditioner p) with
  | None => throw NoConvergence
  | Some solved =>
      let completely_distributed_solution :=
        constraints_distribute (constraints p) solved in
      let locally_relevant_solution :=
        ghost_assign (locally_relevant_solution p)
                     completely_distributed_solution in
      let p' :=
        {| parameters := parameters p;
           time_step := time_step p;
           n_mpi_processes := n_mpi_processes p;
           this_mpi_process := this_mpi_process p;
           fe := fe p;
           quad := quad p;
           triangulation := triangulation p;
           dof_handler := dof_handler p;
           locally_owned_dofs := locally_owned_dofs p;
           locally_relevant_dofs := locally_relevant_dofs p;
           parser_constants := parser_constants p;
           convection_function := convection_function p;
           forcing_function := forcing_function;
           constraints := constraints p;
           locally_relevant_solution := locally_relevant_solution;
           system_rhs := system_rhs;
           system_matrix := system_matrix p;
           preconditioner := preconditioner p |} in
      (* unsigned remainder; a zero divisor is a fault *)
      (if save_interval (parameters p) =? 0 then throw DivisionByZero
       else if time_step_n mod save_interval (parameters p) =? 0
            then write_checkpoint time_step_n p'
            else ret tt) ;;
      ret (completely_distributed_solution, p')
  end.

(** [for (unsigned int time_step_n = 0;
          time_step_n < parameters.n_time_steps; ++time_step_n)],
    entered with the counter at [time_step_n]. *)
Fixpoint time_loop (fuel : nat) (time_step_n : Z) (current_time : double)
    (completely_distributed_solution : Vector) (p : CDRProblem)
  : Run CDRProblem :=
  match fuel with
  | O => ([], OutOfFuel)
  | S fuel' =>
      if time_step_n <? n_time_steps (parameters p) then
        let current_time := dadd current_time (time_step p) in
        sp <- time_step_body time_step_n completely_distributed_solution p ;;
        time_loop fuel' (uint_wrap (time_step_n + 1)) current_time
                  (fst sp) (snd sp)
      else ret p
  end.

Definition time_iterate (p : CDRProblem) : Run CDRProblem :=
  let completely_distributed_solution :=
    vector_reinit (locally_owned_dofs p) in
  let current_time := start_time (parameters p) in
  time_loop (S (Z.to_nat (n_time_steps (parameters p)))) 0 current_time
            completely_distributed_solution p.

(** ** [run] and [main] *)

Definition run (p : CDRProblem) : Run CDRProblem :=
  p <- setup_geometry p ;;
  p <- setup_matrices p ;;
  time_iterate p.

(** [CDRProblem<dim> cdr_problem(parameters); cdr_problem.run();] *)
Definition main (dim : Z) (n_mpi_processes this_mpi_process : Z)
    (parameters : Parameters) : Run CDRProblem :=
  p <- CDRProblem_ctor dim n_mpi_processes this_mpi_process parameters ;;
  run p.

(** ** Reading a trace *)

Definition matrix_assemblies (tr : list Event) : list Matrix :=
  flat_map (fun ev => match ev with
                      | EvCreateSystemMatrix _ m => [m]
                      | _ => []
                      end) tr.

(** The step indices of the passes through the loop body, in order. *)
Definition iterations (tr : list Event) : list Z :=
  flat_map (fun ev => match ev with
                      | EvAdvanceTime n _ => [n]
                      | _ => []
                      end) tr.

Definition time_advances (tr : list Event) : list double :=
  flat_map (fun ev => match ev with
                      | EvAdvanceTime _ dt => [dt]
                      | _ => []
                      end) tr.

(** Per right-hand-side assembly: step index, time of the forcing function,
    previous solution. *)
Definition rhs_assemblies (tr : list Event) : list (Z * double * Vector) :=
  flat_map (fun ev => match ev with
                      | EvCreateSystemRhs n t u _ => [(n, t, u)]
                      | _ => []
                      end) tr.

(** The step indices of the calls of the solver. *)
Definition solve_steps (tr : list Event) : list Z :=
  flat_map (fun ev => match ev with
                      | EvSolve n _ _ _ _ => [n]
                      | _ => []
                      end) tr.

(** The step indices at which a per-process file was written. *)
Definition checkpoints (tr : list Event) : list Z :=
  flat_map (fun ev => match ev with
                      | EvWriteVtu n _ _ _ => [n]
                      | _ => []
                      end) tr.

(** The files written: step index, name, and for a record file the names it
    lists. *)
Inductive FileWrite : Type :=
| PerProcessFile (time_step_n : Z) (name : string)
| ManifestFile (time_step_n : Z) (name : string) (entries : list string).

Definition files_written (tr : list Event) : list FileWrite :=
  flat_map (fun ev => match ev with
                      | EvWriteVtu n f _ _ => [PerProcessFile n f]
                      | EvWritePvtu n f names => [ManifestFile n f names]
                      | _ => []
                      end) tr.

End TimeLoop.

(** ** A deterministic stand-in for the collaborators

    Exact rational arithmetic, the coarse mesh of a ring of ten
    quadrilaterals, one DoF per vertex, an identity operator, a solver that always converges, and a parser that
    accepts every non-empty expression.  It is what the concrete runs below
    are evaluated with. *)
Module Stub.

Definition boundary_face : Face :=
  {| face_at_boundary := true; face_manifold_id := flat_manifold_id |}.

Definition interior_face : Face :=
  {| face_at_boundary := false; face_manifold_id := flat_manifold_id |}.

(** Cell [i] of a ring of [n] quadrilaterals: faces [3i] (inner arc) and
    [3i + 1] (outer arc) lie on the boundary, face [3i + 2] is the radial
    line it shares with cell [i + 1], and its fourth face is the radial line
    of its other neighbour. *)
Definition ring_cell (n i : nat) : Cell :=
  {| cell_active := true;
     cell_manifold_id := flat_manifold_id;
     cell_faces :=
       [(3 * ((i + n - 1) mod n) + 2)%nat; (3 * i + 2)%nat;
        (3 * i)%nat; (3 * i + 1)%nat] |}.

Definition ring_mesh (n : nat) : list Cell * list Face :=
  (map (ring_cell n) (seq 0 n),
   flat_map (fun _ => [boundary_face; boundary_face; interior_face])
            (seq 0 n)).

Definition stub_n_dofs (dh : DoFHandler) : Z :=
  2 * Z.of_nat (List.length (tria_cells (dh_triangulation dh))).

Definition stub_dofs (dh : DoFHandler) : IndexSet :=
  map Z.of_nat (seq 0 (Z.to_nat (stub_n_dofs dh))).

Definition nonempty (s : string) : bool :=
  match s with
  | EmptyString => false
  | String _ _ => true
  end.

Definition sum_of_squares (v : Vector (A := Qc_arith)) : Qc :=
  fold_right (fun e acc => Qcplus (Qcmult (snd e) (snd e)) acc) (Q2Qc 0) v.

#[export] Instance backend : Backend Qc_arith := {|
  Matrix := list (Z * Z * Qc);
  Preconditioner := list (Z * Z * Qc);
  ConstraintMatrix := list Z;
  DynamicSparsityPattern := list (Z * Z);
  empty_matrix := [];
  empty_preconditioner := [];
  empty_constraints := [];
  parses := fun _ _ expression => nonempty expression;
  hyper_shell := fun _ _ => ring_mesh 10;
  refine_global := fun _ mesh => mesh;
  n_dofs := stub_n_dofs;
  dh_locally_owned_dofs := stub_dofs;
  extract_locally_relevant_dofs := stub_dofs;
  constraints_reinit := fun _ => [];
  make_hanging_node_constraints := fun _ c => c;
  interpolate_boundary_values := fun dh _ _ => stub_dofs dh;
  constraints_close := fun c => c;
  constraints_distribute := fun _ v => v;
  make_sparsity_pattern := fun _ idx _ => map (fun i => (i, i)) idx;
  distribute_sparsity_pattern := fun sp _ _ => sp;
  matrix_reinit := fun _ sp => map (fun ij => (ij, Q2Qc 0)) sp;
  matrix_compress := fun m => m;
  preconditioner_initialize := fun m => m;
  vector_compress := fun v => v;
  l2_norm := sum_of_squares;
  ghost_assign := fun _ v => v;
  gmres_solve := fun _ _ _ _ rhs _ => Some rhs;
  create_system_matrix :=
    fun _ _ _ _ _ _ m => map (fun e => (fst e, Q2Qc 1)) m;
  create_system_rhs := fun _ _ _ _ _ previous _ rhs => rhs
|}.

(** A small configuration: seven steps on [0, 2], a checkpoint every third
    step. *)
Definition example_parameters (convection : string) : Parameters :=
  {| inner_radius := Q2Qc 1;
     outer_radius := Q2Qc 2;
     diffusion_coefficient := Q2Qc (1 # 1000);
     convection_field := convection;
     reaction_coefficient := Q2Qc (1 # 10000);
     forcing := "exp(-2*t)*exp(-40*(x - 1.5)^6)*exp(-40*y^6)";
     time_dependent_forcing := true;
     refinement_level := 0;
     fe_order := 1;
     start_time := Q2Qc 0;
     stop_time := Q2Qc 2;
     n_time_steps := 7;
     save_interval := 3;
     patch_level := 3 |}.

(** The problem the constructor builds from it, for three processes, on
    rank 0. *)
Definition example_problem : CDRProblem :=
  {| parameters := example_parameters "-y,x";
     time_step := Qcdiv (Qcminus (Q2Qc 2) (Q2Qc 0)) (Q2Qc (inject_Z 7));
     n_mpi_processes := 3;
     this_mpi_process := 0;
     fe := 1;
     quad := 4;
     triangulation := empty_triangulation 0;
     dof_handler :=
       {| dh_triangulation := empty_triangulation 0; dh_fe_degree := 0 |};
     locally_owned_dofs := [];
     locally_relevant_dofs := [];
     parser_constants := [("pi", Q2Qc (355 # 113))];
     convection_function :=
       {| fp_n_components := 2;
          fp_expressions := ["-y"; "x"];
          fp_time := Q2Qc 0 |};
     forcing_function :=
       {| fp_n_components := 1;
          fp_expressions := [forcing (example_parameters "-y,x")];
          fp_time := Q2Qc 0 |};
     constraints := [];
     locally_relevant_solution := [];
     system_rhs := [];
     system_matrix := [];
     preconditioner := [] |}.

(** A stand-in over any arithmetic whose load vector shows what it was
    assembled from (the previous solution plus the time of the forcing
    function, entry by entry) and whose solver needs at least one
    iteration and a tolerance that [accept] admits. *)
Definition limited (A : Arith) (accept : double -> bool) : Backend A := {|
  Matrix := list (Z * Z * double);
  Preconditioner := list (Z * Z * double);
  ConstraintMatrix := list Z;
  DynamicSparsityPattern := list (Z * Z);
  empty_matrix := [];
  empty_preconditioner := [];
  empty_constraints := [];
  parses := fun _ _ expression => nonempty expression;
  hyper_shell := fun _ _ => ring_mesh 10;
  refine_global := fun _ mesh => mesh;
  n_dofs := stub_n_dofs;
  dh_locally_owned_dofs := stub_dofs;
  extract_locally_relevant_dofs := stub_dofs;
  constraints_reinit := fun _ => [];
  make_hanging_node_constraints := fun _ c => c;
  interpolate_boundary_values := fun dh _ _ => stub_dofs dh;
  constraints_close := fun c => c;
  constraints_distribute := fun _ v => v;
  make_sparsity_pattern := fun _ idx _ => map (fun i => (i, i)) idx;
  distribute_sparsity_pattern := fun sp _ _ => sp;
  matrix_reinit := fun _ sp => map (fun ij => (ij, d_zero)) sp;
  matrix_compress := fun m => m;
  preconditioner_initialize := fun m => m;
  vector_compress := fun v => v;
  l2_norm :=
    fun v => fold_right (fun e acc => dadd (dmul (snd e) (snd e)) acc)
                        d_zero v;
  ghost_assign := fun _ v => v;
  gmres_solve :=
    fun max_steps tolerance _ _ rhs _ =>
      if (0 <? max_steps) && accept tolerance then Some rhs else None;
  create_system_matrix :=
    fun _ _ _ _ _ _ m => map (fun e => (fst e, d_of_uint 1)) m;
  create_system_rhs :=
    fun _ _ _ forcing _ previous _ _ =>
      map (fun e => (fst e, dadd (snd e) (fp_time forcing))) previous
|}.

(** The same with a solver that takes every tolerance. *)
Definition generic (A : Arith) : Backend A := limited A (fun _ => true).

(** The problem the constructor builds from [params] with this stand-in,
    for [P] processes, on rank [r], when the convection field is
    ["-y,x"]. *)
Definition limited_problem (A : Arith) (accept : double -> bool) (P r : Z)
    (params : Parameters (A := A)) : CDRProblem (B := limited A accept) :=
  {| parameters := params;
     time_step := ddiv (dsub (stop_time params) (start_time params))
                       (d_of_uint (n_time_steps params));
     n_mpi_processes := P;
     this_mpi_process := r;
     fe := fe_order params;
     quad := uint_wrap (3 * uint_wrap (2 + fe_order params)) / 2;
     triangulation := empty_triangulation r;
     dof_handler :=
       {| dh_triangulation := empty_triangulation r; dh_fe_degree := 0 |};
     locally_owned_dofs := [];
     locally_relevant_dofs := [];
     parser_constants := [("pi", d_pi)];
     convection_function :=
       {| fp_n_components := 2;
          fp_expressions := ["-y"; "x"];
          fp_time := d_zero |};
     forcing_function :=
       {| fp_n_components := 1;
          fp_expressions := [forcing params];
          fp_time := start_time params |};
     constraints := empty_constraints;
     locally_relevant_solution := [];
     system_rhs := [];
     system_matrix := empty_matrix;
     preconditioner := empty_preconditioner |}.

Definition generic_problem (A : Arith) (P r : Z)
    (params : Parameters (A := A)) : CDRProblem (B := generic A) :=
  limited_problem A (fun _ => true) P r params.

(** A configuration in binary64: four steps on [1e16, 1e16 + 2]. *)
Definition far_parameters : Parameters (A := binary64_arith) :=
  @Build_Parameters binary64_arith
    1%float 2%float 0.5%float "-y,x" 0.25%float
    "exp(-2*t)*exp(-40*(x - 1.5)^6)*exp(-40*y^6)" true
    0 1
    1e16%float 10000000000000002%float 4
    1 3.

(** The problem the constructor builds from it, for one process. *)
Definition far_problem : CDRProblem (B := generic binary64_arith) :=
  generic_problem binary64_arith 1 0 far_parameters.

(** The same problem for a solver that gives up on tolerances of [2^93]
    (about [1e28]) and more. *)
Definition strained : Backend binary64_arith :=
  limited binary64_arith (fun tolerance => PrimFloat.ltb tolerance 0x1p+93).

Definition strained_problem : CDRProblem (B := strained) :=
  limited_problem binary64_arith
    (fun tolerance => PrimFloat.ltb tolerance 0x1p+93) 1 0 far_parameters.

(** A configuration without time steps, and its problem. *)
Definition idle_parameters : Parameters (A := binary64_arith) :=
  @Build_Parameters binary64_arith
    1%float 2%float 0.5%float "-y,x" 0.25%float
    "exp(-2*t)*exp(-40*(x - 1.5)^6)*exp(-40*y^6)" true
    0 1
    0%float 2%float 0
    1 3.

Definition idle_problem : CDRProblem (B := generic binary64_arith) :=
  generic_problem binary64_arith 1 0 idle_parameters.

(** The configuration in [main], in binary64; the two hexadecimal
    literals are the doubles [1.0e-3] and [1.0e-4]. *)
Definition shipped_parameters : Parameters (A := binary64_arith) :=
  @Build_Parameters binary64_arith
    1%float 2%float 0x1.0624dd2f1a9fcp-10%float "-y,x"
    0x1.a36e2eb1c432dp-14%float
    "exp(-2*t)*exp(-40*(x - 1.5)^6)*exp(-40*y^6)" true
    3 2
    0%float 2%float 200
    1 3.

End Stub.

(** A computation that ended normally. *)
Definition completed {A : Arith} {B : Backend A} {T} (m : Run T) : bool :=
  match outcome m with
  | Ok _ => true
  | _ => false
  end.

(** ** Vocabulary of the statements *)

Fixpoint has_char (c : ascii) (s : string) : bool :=
  match s with
  | EmptyString => false
  | String a s' => Ascii.eqb a c || has_char c s'
  end.

Definition has_comma (s : string) : bool := has_char "," s.

(** What the expression parser is asked about in the constructor: the two
    clauses of the convection field over [(x, y)] and the forcing over
    [(x, y, t)], with the constant [pi]. *)
Definition expressions_parse {A : Arith} {B : Backend A}
    (first second : string) (parameters : Parameters) : bool :=
  parses "x,y" ["pi"%string] first && parses "x,y" ["pi"%string] second
  && parses "x,y,t" ["pi"%string] (forcing parameters).

(** [k] advances of a [FunctionTime] by [dt], starting from time [t]. *)
Fixpoint advanced {A : Arith} (k : nat) (t dt : double) : double :=
  match k with
  | O => t
  | S k' => dadd (advanced k' t dt) dt
  end.

(** The least [c] with [n <= c * k], for positive [k]. *)
Definition ceil_div (n k : Z) : Z := (n + k - 1) / k.

(** The files one process writes at a saved step. *)
Definition step_files (n_mpi_processes this_mpi_process time_step_n : Z)
  : list FileWrite :=
  PerProcessFile time_step_n (piece_name time_step_n this_mpi_process)
  :: (if this_mpi_process =? 0
      then [ManifestFile time_step_n (step_stem time_step_n ++ ".pvtu")
              (map (piece_name time_step_n) (uint_range n_mpi_processes))]
      else []).

(** Is face [i] a bounding line of an active cell of [cells]? *)
Definition touched (cells : list Cell) (i : nat) : bool :=
  existsb (fun c => cell_active c && existsb (Nat.eqb i) (cell_faces c)) cells.

(** A cell after [set_all_manifold_ids(0)] if it is active. *)
Definition tagged_cell (c : Cell) : Cell :=
  if cell_active c
  then {| cell_active := cell_active c;
          cell_manifold_id := 0;
          cell_faces := cell_faces c |}
  else c.

(** The counter values [i, i + 1, ..., m - 1]. *)
Definition uint_from (i m : Z) : list Z :=
  map Z.of_nat (seq (Z.to_nat i) (Z.to_nat (m - i))).

(** [p'] differs from [p] at most in what the time loop assigns: the
    forcing function's time, the right-hand side and the ghosted solution. *)
Definition same_setup {A : Arith} {B : Backend A} (p p' : CDRProblem)
  : Prop :=
  parameters p' = parameters p
  /\ time_step p' = time_step p
  /\ n_mpi_processes p' = n_mpi_processes p
  /\ this_mpi_process p' = this_mpi_process p
  /\ triangulation p' = triangulation p
  /\ dof_handler p' = dof_handler p
  /\ system_matrix p' = system_matrix p
  /\ preconditioner p' = preconditioner p.

(** Reading file names back.  [parse_decimal v s] reads the decimal digits
    at the head of [s] after the value [v]; [skip_digits] drops them. *)
Definition is_digit (c : ascii) : bool :=
  (48 <=? nat_of_ascii c)%nat && (nat_of_ascii c <=? 57)%nat.

Definition digit_value (c : ascii) : Z := Z.of_nat (nat_of_ascii c) - 48.

Fixpoint parse_decimal (v : Z) (s : string) : Z :=
  match s with
  | EmptyString => v
  | String c s' =>
      if is_digit c then parse_decimal (10 * v + digit_value c) s' else v
  end.

Fixpoint skip_digits (s : string) : string :=
  match s with
  | EmptyString => EmptyString
  | String c s' => if is_digit c then skip_digits s' else s
  end.

(** Step index and rank read back from the name of a per-process file:
    the digits after ["solution-"], and the digits after the dot that
    follows them. *)
Definition decode_piece_name (name : string) : Z * Z :=
  let s := drop 9 name in
  (parse_decimal 0 s, parse_decimal 0 (drop 1 (skip_digits s))).

Fixpoint all_digits (s : string) : bool :=
  match s with
  | EmptyString => true
  | String c s' => is_digit c && all_digits s'
  end.

Definition file_name (w : FileWrite) : string :=
  match w with
  | PerProcessFile _ name => name
  | ManifestFile _ name _ => name
  end.

(** The three calls every pass starts with, for pass [m] of problem [p]
    with the right-hand side assembled as [b]. *)
Definition pass_head {A : Arith} {B : Backend A} (m : Z) (p : CDRProblem)
    (b : Vector) : list Event :=
  [EvAdvanceTime m (time_step p);
   EvCreateSystemRhs m
     (dadd (fp_time (forcing_function p)) (time_step p))
     (locally_relevant_solution p) b;
   EvSolve m (n_dofs (dof_handler p))
     (dmul d_1em6 (l2_norm (vector_compress b)))
     (system_matrix p) (vector_compress b)].

(** [p'] is [p] up to what a pass assigns, constraints included. *)
Definition same_operator {A : Arith} {B : Backend A} (p p' : CDRProblem)
  : Prop :=
  same_setup p p'
  /\ constraints p' = constraints p
  /\ quad p' = quad p
  /\ convection_function p' = convection_function p.

(** ** The run as the specification describes it

    Set-up (DoFs, constraints, sparsity, operator, preconditioner) and one
    time step after the other, each written as the library calls with their
    arguments, without the driver's bookkeeping.  The driver is compared
    with it below. *)

Section Reference.

Context {A : Arith} {B : Backend A}.

(** The problem [run] enters the time loop with: [p] after
    [setup_geometry] and [setup_matrices]. *)
Definition prepared (p : CDRProblem) : CDRProblem :=
  match outcome (q <- setup_geometry p ;; setup_matrices q) with
  | Ok q => q
  | _ => p
  end.

Definition zero_vector (idx : IndexSet) : Vector :=
  map (fun i => (i, d_zero)) idx.

Definition run_dof_handler (p : CDRProblem) : DoFHandler :=
  {| dh_triangulation := refined_mesh p; dh_fe_degree := fe p |}.

Definition run_owned_dofs (p : CDRProblem) : IndexSet :=
  dh_locally_owned_dofs (run_dof_handler p).

Definition run_relevant_dofs (p : CDRProblem) : IndexSet :=
  extract_locally_relevant_dofs (run_dof_handler p).

(** Hanging-node constraints and homogeneous Dirichlet values on boundary
    0, closed. *)
Definition run_constraints (p : CDRProblem) : ConstraintMatrix :=
  constraints_close
    (interpolate_boundary_values (run_dof_handler p) 0
       (make_hanging_node_constraints (run_dof_handler p)
          (constraints_reinit (run_relevant_dofs p)))).

Definition run_sparsity (p : CDRProblem) : DynamicSparsityPattern :=
  distribute_sparsity_pattern
    (make_sparsity_pattern (run_dof_handler p) (run_relevant_dofs p)
                           (run_constraints p))
    (run_dof_handler p) (run_relevant_dofs p).

(** The operator: assembled once from DoFs, quadrature, convection field,
    parameters, step size and constraints. *)
Definition assembled_matrix (p : CDRProblem) : Matrix :=
  create_system_matrix (run_dof_handler p) (quad p) (convection_function p)
                       (parameters p) (time_step p) (run_constraints p)
                       (matrix_reinit (run_owned_dofs p) (run_sparsity p)).

Definition run_matrix (p : CDRProblem) : Matrix :=
  matrix_compress (assembled_matrix p).

Definition run_preconditioner (p : CDRProblem) : Preconditioner :=
  preconditioner_initialize (run_matrix p).

(** What changes from step to step: the time of the forcing function, the
    ghosted solution, the right-hand side, and the distributed solution
    (the solver's initial guess). *)
Record LoopState : Type := {
  ls_forcing_time : double;
  ls_solution : Vector;
  ls_rhs : Vector;
  ls_distributed : Vector
}.

(** Before the first step: the forcing function at the time the
    constructor set, everything else zero. *)
Definition initial_state (p : CDRProblem) : LoopState :=
  {| ls_forcing_time := fp_time (forcing_function p);
     ls_solution := zero_vector (run_relevant_dofs p);
     ls_rhs := zero_vector (run_owned_dofs p);
     ls_distributed := zero_vector (run_owned_dofs p) |}.

(** The load vector of the step from state [s]: assembled into the zeroed
    right-hand side from the forcing function advanced by the step size and
    the previous ghosted solution. *)
Definition pass_assembled (p : CDRProblem) (s : LoopState) : Vector :=
  create_system_rhs (run_dof_handler p) (quad p) (convection_function p)
    (set_time (dadd (ls_forcing_time s) (time_step p)) (forcing_function p))
    (parameters p) (ls_solution s) (run_constraints p)
    (map (fun e => (fst e, d_zero)) (ls_rhs s)).

(** The right-hand side of the step: the load vector, compressed. *)
Definition pass_rhs (p : CDRProblem) (s : LoopState) : Vector :=
  vector_compress (pass_assembled p s).

(** The solve of the step from state [s]: at most as many iterations as
    there are DoFs, tolerance [1e-6] times the norm of the right-hand side,
    the operator and its preconditioner, started from the last distributed
    solution. *)
Definition pass_solve (p : CDRProblem) (s : LoopState) : option Vector :=
  gmres_solve (n_dofs (run_dof_handler p))
              (dmul d_1em6 (l2_norm (pass_rhs p s)))
              (run_matrix p) (ls_distributed s) (pass_rhs p s)
              (run_preconditioner p).

(** One step: [None] when the solver does not converge. *)
Definition next_state (p : CDRProblem) (s : LoopState) : option LoopState :=
  match pass_solve p s with
  | None => None
  | Some solved =>
      let distributed := constraints_distribute (run_constraints p) solved in
      Some {| ls_forcing_time := dadd (ls_forcing_time s) (time_step p);
              ls_solution := ghost_assign (ls_solution s) distributed;
              ls_rhs := pass_rhs p s;
              ls_distributed := distributed |}
  end.

(** [k] steps from state [s]. *)
Fixpoint state_from (k : nat) (p : CDRProblem) (s : LoopState)
  : option LoopState :=
  match k with
  | O => Some s
  | S k' =>
      match next_state p s with
      | Some s' => state_from k' p s'
      | None => None
      end
  end.

(** The state after [k] steps of the run. *)
Definition state_after (k : nat) (p : CDRProblem) : option LoopState :=
  state_from k p (initial_state p).

(** The driver's variables [cds] (the local
    [completely_distributed_solution]) and [q] hold the state [s] of the
    run of [p]. *)
Definition holds_state (p : CDRProblem) (s : LoopState) (cds : Vector)
    (q : CDRProblem) : Prop :=
  parameters q = parameters p
  /\ time_step q = time_step p
  /\ n_mpi_processes q = n_mpi_processes p
  /\ this_mpi_process q = this_mpi_process p
  /\ triangulation q = refined_mesh p
  /\ dof_handler q = run_dof_handler p
  /\ quad q = quad p
  /\ convection_function q = convection_function p
  /\ constraints q = run_constraints p
  /\ system_matrix q = run_matrix p
  /\ preconditioner q = run_preconditioner p
  /\ forcing_function q = set_time (ls_forcing_time s) (forcing_function p)
  /\ locally_relevant_solution q = ls_solution s
  /\ system_rhs q = ls_rhs s
  /\ cds = ls_distributed s.

End Reference.

(** The ways through the loop body: the solver converges or not, the save
    interval is zero or not, the step is saved or not, on rank 0 or not. *)
Ltac body_cases i p :=
  unfold time_step_body;
  destruct (gmres_solve _ _ _ _ _ _);
  [ destruct (save_interval (parameters p) =? 0) eqn:?;
    [ | destruct (i mod save_interval (parameters p) =? 0) eqn:?;
        [ unfold write_checkpoint; cbn [this_mpi_process];
          destruct (this_mpi_process p =? 0) eqn:? | ] ]
  | ]; cbn -[int_to_string step_stem piece_name uint_range append].

(** * Proofs *)

(** ** Strings *)

Lemma size_nonneg (s : string) : 0 <= size s.
Proof. unfold size. lia. Qed.

Lemma size_String (a : ascii) (s : string) : size (String a s) = size s + 1.
Proof. unfold size. simpl String.length. lia. Qed.

Lemma size_append (a b : string) : size (a ++ b) = size a + size b.
Proof.
  induction a as [|c a IH]; cbn [append].
  - unfold size. simpl. lia.
  - rewrite !size_String, IH. lia.
Qed.

Lemma append_assoc (a b c : string) : (a ++ b) ++ c = a ++ b ++ c.
Proof. induction a as [|x a IH]; simpl; [reflexivity | now rewrite IH]. Qed.

Lemma take_all (s : string) : take (String.length s) s = s.
Proof. induction s as [|c s IH]; simpl; [reflexivity | now rewrite IH]. Qed.

Lemma take_append (a b : string) : take (String.length a) (a ++ b) = a.
Proof.
  induction a as [|c a IH]; simpl.
  - destruct b; reflexivity.
  - now rewrite IH.
Qed.

Lemma drop_append (a b : string) : drop (String.length a) (a ++ b) = b.
Proof. induction a as [|c a IH]; simpl; [reflexivity | exact IH]. Qed.

Lemma find_from_absent (c : ascii) (s : string) (i : Z) :
  has_char c s = false -> find_from c s i = npos.
Proof.
  revert i. induction s as [|a s IH]; intros i H; simpl in *.
  - reflexivity.
  - apply orb_false_iff in H. destruct H as [Ha Hs].
    rewrite Ha. now apply IH.
Qed.

Lemma find_from_first (c : ascii) (a b : string) (i : Z) :
  has_char c a = false -> find_from c (a ++ String c b) i = i + size a.
Proof.
  revert i. induction a as [|x a IH]; intros i H; simpl in *.
  - rewrite Ascii.eqb_refl. unfold size. simpl. lia.
  - apply orb_false_iff in H. destruct H as [Hx Ha].
    rewrite Hx, IH by assumption. rewrite size_String. lia.
Qed.

Lemma substr_whole (s : string) :
  size s <= npos -> substr s 0 npos = Ok s.
Proof.
  intros H. unfold substr.
  pose proof (size_nonneg s) as Hs.
  destruct (Z.ltb_spec (size s) 0) as [Hlt|_]; [lia|].
  rewrite Z.sub_0_r, Z.min_r by assumption.
  unfold size. rewrite Nat2Z.id. simpl drop. now rewrite take_all.
Qed.

Lemma substr_prefix (a b : string) :
  substr (a ++ b) 0 (size a) = Ok a.
Proof.
  unfold substr.
  pose proof (size_nonneg (a ++ b)) as Hs.
  destruct (Z.ltb_spec (size (a ++ b)) 0) as [Hlt|_]; [lia|].
  rewrite Z.sub_0_r, size_append, Z.min_l by (pose proof (size_nonneg b); lia).
  unfold size. rewrite Nat2Z.id. simpl drop. now rewrite take_append.
Qed.

Lemma substr_suffix (a b : string) :
  size b <= npos -> substr (a ++ b) (size a) npos = Ok b.
Proof.
  intros H. unfold substr. rewrite size_append.
  pose proof (size_nonneg b) as Hb.
  destruct (Z.ltb_spec (size a + size b) (size a)) as [Hlt|_]; [lia|].
  replace (size a + size b - size a) with (size b) by lia.
  rewrite Z.min_r by assumption.
  unfold size. rewrite !Nat2Z.id. now rewrite drop_append, take_all.
Qed.

Lemma npos_succ_wraps : size_t_wrap (npos + 1) = 0.
Proof. reflexivity. Qed.

Lemma size_t_wrap_small (z : Z) : 0 <= z < size_t_modulus -> size_t_wrap z = z.
Proof. intros H. unfold size_t_wrap. now apply Z.mod_small. Qed.

(** Ranks below 10000 are written with exactly four digits. *)
Lemma int_to_string_four (r : Z) :
  0 <= r < 10000 -> size (int_to_string r 4) = 4.
Proof.
  intros Hr.
  assert (H : forallb (fun i => size (int_to_string i 4) =? 4)
                      (map Z.of_nat (seq 0 (Z.to_nat 10000))) = true)
    by (vm_compute; reflexivity).
  rewrite forallb_forall in H. apply Z.eqb_eq, H.
  apply in_map_iff. exists (Z.to_nat r). split; [lia|].
  apply in_seq. lia.
Qed.

(** ** Computations *)

Section RunLemmas.

Context {A : Arith} {B : Backend A}.

Lemma trace_bind {T U} (m : Run T) (k : T -> Run U) :
  trace (bind m k)
  = (trace m ++ match outcome m with
                | Ok x => trace (k x)
                | _ => []
                end)%list.
Proof.
  destruct m as [tr [x|e|]]; simpl.
  - destruct (k x); reflexivity.
  - now rewrite app_nil_r.
  - now rewrite app_nil_r.
Qed.

Lemma outcome_bind {T U} (m : Run T) (k : T -> Run U) :
  outcome (bind m k)
  = match outcome m with
    | Ok x => outcome (k x)
    | Abort e => Abort e
    | OutOfFuel => OutOfFuel
    end.
Proof.
  destruct m as [tr [x|e|]]; simpl; try reflexivity.
  destruct (k x); reflexivity.
Qed.

Lemma trace_bind_nil {T U} (m : Run T) (k : T -> Run U) :
  trace m = [] -> (forall x, trace (k x) = []) -> trace (bind m k) = [].
Proof.
  intros Hm Hk. rewrite trace_bind, Hm. destruct (outcome m); cbn; auto.
Qed.

Lemma outcome_bind_ok {T U} (m : Run T) (k : T -> Run U) (y : U) :
  outcome (bind m k) = Ok y ->
  exists x, outcome m = Ok x /\ outcome (k x) = Ok y.
Proof.
  rewrite outcome_bind. destruct (outcome m) as [x|e|]; try discriminate.
  eauto.
Qed.

Lemma bind_ret_l {T U} (x : T) (k : T -> Run U) : bind (ret x) k = k x.
Proof. unfold bind, ret. destruct (k x); reflexivity. Qed.

Lemma run_eta {T} (m : Run T) : m = (trace m, outcome m).
Proof. destruct m; reflexivity. Qed.


(** ** The constructor *)

Lemma split_no_comma (s : string) :
  size s < npos -> has_comma s = false ->
  split_convection_field s = ([], Ok [s; s]).
Proof.
  intros Hsz Hc. unfold split_convection_field, find_first_of.
  rewrite (find_from_absent _ _ _ Hc), npos_succ_wraps.
  rewrite substr_whole by lia. reflexivity.
Qed.

Lemma split_at_first_comma (a b : string) :
  size (a ++ String "," b) < npos -> has_comma a = false ->
  split_convection_field (a ++ String "," b) = ([], Ok [a; b]).
Proof.
  intros Hsz Hc. unfold split_convection_field, find_first_of.
  rewrite (find_from_first _ _ _ _ Hc), Z.add_0_l.
  rewrite size_append, size_String in Hsz.
  pose proof (size_nonneg a) as Ha. pose proof (size_nonneg b) as Hb.
  rewrite substr_prefix.
  rewrite size_t_wrap_small by (unfold npos in Hsz; lia).
  replace (a ++ String "," b) with ((a ++ ",") ++ b).
  2:{ clear. induction a as [|c a IH]; simpl; [reflexivity | now rewrite IH]. }
  replace (size a + 1) with (size (a ++ ",")).
  2:{ rewrite size_append. reflexivity. }
  rewrite substr_suffix by lia. reflexivity.
Qed.

(** A string either has no comma or is cut by its first comma. *)
Lemma first_comma (s : string) :
  has_comma s = false
  \/ exists a b, has_comma a = false /\ s = a ++ String "," b.
Proof.
  induction s as [|c s IH]; [now left|].
  unfold has_comma in *. simpl.
  destruct (Ascii.eqb_spec c ",") as [->|Hne].
  - right. exists EmptyString, s. split; reflexivity.
  - destruct IH as [IH|(a & b & Ha & ->)]; [now left|].
    right. exists (String c a), b. split; [|reflexivity].
    simpl. apply Ascii.eqb_neq in Hne. now rewrite Hne, Ha.
Qed.

Lemma split_total (s : string) :
  size s < npos ->
  exists first second, split_convection_field s = ([], Ok [first; second]).
Proof.
  intros Hsz. destruct (first_comma s) as [Hc|(a & b & Ha & ->)].
  - exists s, s. now apply split_no_comma.
  - exists a, b. now apply split_at_first_comma.
Qed.

Lemma ctor_wrong_dimension (dim P r : Z) (params : Parameters) :
  dim <> 2 -> CDRProblem_ctor dim P r params = ([], Abort ExcNotImplemented).
Proof.
  intros Hd. unfold CDRProblem_ctor, Assert.
  apply Z.eqb_neq in Hd. rewrite Hd. reflexivity.
Qed.

Lemma fp_initialize_trace (vars : string) (es : list string)
    (cs : list (string * double)) (f : FunctionParser) :
  trace (fp_initialize vars es cs f) = [].
Proof.
  unfold fp_initialize.
  destruct (negb _); [reflexivity|]. destruct (forallb _ _); reflexivity.
Qed.

Lemma split_trace (s : string) : trace (split_convection_field s) = [].
Proof.
  unfold split_convection_field, lift.
  destruct (substr s 0 _); try reflexivity.
  destruct (substr s _ npos); reflexivity.
Qed.

Lemma ctor_trace (dim P r : Z) (params : Parameters) :
  trace (CDRProblem_ctor dim P r params) = [].
Proof.
  unfold CDRProblem_ctor.
  repeat (apply trace_bind_nil; [|intros ?]);
    auto using fp_initialize_trace, split_trace.
  unfold Assert. destruct (dim =? 2); reflexivity.
Qed.

Lemma ctor_dim2 (P r : Z) (params : Parameters) (first second : string) :
  split_convection_field (convection_field params)
  = ([], Ok [first; second]) ->
  completed (CDRProblem_ctor 2 P r params)
  = expressions_parse first second params.
Proof.
  intros Hs. unfold CDRProblem_ctor, Assert, expressions_parse.
  rewrite Z.eqb_refl, bind_ret_l, Hs.
  unfold fp_initialize; cbn.
  destruct (parses "x,y" ["pi"%string] first);
    destruct (parses "x,y" ["pi"%string] second);
    destruct (parses "x,y,t" ["pi"%string] (forcing params)); reflexivity.
Qed.

(** What a constructed problem holds. *)
Lemma fp_initialize_ok (vars : string) (es : list string)
    (cs : list (string * double)) (f g : FunctionParser) :
  outcome (fp_initialize vars es cs f) = Ok g ->
  g = {| fp_n_components := fp_n_components f;
         fp_expressions := es;
         fp_time := fp_time f |}.
Proof.
  unfold fp_initialize.
  destruct (negb _); [discriminate|].
  destruct (forallb _ _); [|discriminate].
  cbn. now intros [= <-].
Qed.

Lemma ctor_fields (dim P r : Z) (params : Parameters) (p : CDRProblem) :
  outcome (CDRProblem_ctor dim P r params) = Ok p ->
  parameters p = params
  /\ time_step p
     = ddiv (dsub (stop_time params) (start_time params))
            (d_of_uint (n_time_steps params))
  /\ n_mpi_processes p = P
  /\ this_mpi_process p = r
  /\ locally_owned_subdomain (triangulation p) = r
  /\ fp_time (forcing_function p) = start_time params.
Proof.
  unfold CDRProblem_ctor. intros H.
  apply outcome_bind_ok in H. destruct H as (_ & _ & H).
  apply outcome_bind_ok in H. destruct H as (cf & _ & H).
  apply outcome_bind_ok in H. destruct H as (c & _ & H).
  apply outcome_bind_ok in H. destruct H as (f & _ & H).
  cbn in H. injection H as <-. cbn. auto 10.
Qed.

End RunLemmas.

(** ** The mesh *)

Lemma update_face_nth (i j : nat) (g : Face -> Face) (fs : list Face) :
  nth_error (update_face i g fs) j
  = if Nat.eqb i j then option_map g (nth_error fs j) else nth_error fs j.
Proof.
  revert i j. induction fs as [|f fs IH]; intros i j.
  - simpl. destruct j; destruct (Nat.eqb i _); reflexivity.
  - destruct i, j; simpl; try reflexivity. apply IH.
Qed.

Lemma set_lines_nth (m : Z) (lines : list nat) (fs : list Face) (j : nat) :
  nth_error (set_lines_manifold_id m lines fs) j
  = if existsb (Nat.eqb j) lines
    then option_map (face_set_manifold_id m) (nth_error fs j)
    else nth_error fs j.
Proof.
  revert fs. induction lines as [|i lines IH]; intros fs; simpl.
  - reflexivity.
  - rewrite IH, update_face_nth, (Nat.eqb_sym j i).
    destruct (Nat.eqb i j); simpl.
    + destruct (nth_error fs j); simpl; destruct (existsb _ lines); reflexivity.
    + reflexivity.
Qed.

Lemma tag_active_cells_cells (cells : list Cell) (fs : list Face) :
  fst (tag_active_cells cells fs) = map tagged_cell cells.
Proof.
  revert fs. induction cells as [|c cells IH]; intros fs; simpl.
  - reflexivity.
  - unfold tagged_cell at 1, set_all_manifold_ids.
    destruct (cell_active c).
    + specialize (IH (set_lines_manifold_id 0 (cell_faces c) fs)).
      destruct (tag_active_cells cells _); simpl in *. now rewrite IH.
    + specialize (IH fs).
      destruct (tag_active_cells cells fs); simpl in *. now rewrite IH.
Qed.

Lemma tag_active_cells_faces (cells : list Cell) (fs : list Face) (j : nat) :
  nth_error (snd (tag_active_cells cells fs)) j
  = if touched cells j
    then option_map (face_set_manifold_id 0) (nth_error fs j)
    else nth_error fs j.
Proof.
  revert fs. induction cells as [|c cells IH]; intros fs; simpl.
  - reflexivity.
  - unfold set_all_manifold_ids. destruct (cell_active c); simpl.
    + specialize (IH (set_lines_manifold_id 0 (cell_faces c) fs)).
      destruct (tag_active_cells cells _); simpl in *.
      rewrite IH, set_lines_nth.
      destruct (existsb (Nat.eqb j) (cell_faces c)); simpl.
      * destruct (nth_error fs j); simpl; destruct (touched cells j);
          reflexivity.
      * reflexivity.
    + specialize (IH fs).
      destruct (tag_active_cells cells fs); simpl in *. exact IH.
Qed.

Lemma touched_spec (cells : list Cell) (i : nat) :
  touched cells i = true
  <-> exists c, In c cells /\ cell_active c = true /\ In i (cell_faces c).
Proof.
  unfold touched. rewrite existsb_exists. split.
  - intros (c & Hc & H). apply andb_true_iff in H. destruct H as [Ha H].
    apply existsb_exists in H. destruct H as (k & Hk & E).
    apply Nat.eqb_eq in E. subst k. eauto.
  - intros (c & Hc & Ha & Hi). exists c. split; [assumption|].
    apply andb_true_iff. split; [assumption|].
    apply existsb_exists. exists i. split; [assumption|apply Nat.eqb_refl].
Qed.

Lemma touched_tagged (cells : list Cell) (i : nat) :
  touched (map tagged_cell cells) i = touched cells i.
Proof.
  unfold touched. induction cells as [|c cells IH]; simpl; [reflexivity|].
  rewrite IH. unfold tagged_cell. destruct (cell_active c) eqn:E; simpl.
  - reflexivity.
  - now rewrite E.
Qed.

Section MeshLemmas.

Context {A : Arith} {B : Backend A}.

Lemma tagged_coarse_mesh_cells (p : CDRProblem) :
  tria_cells (tagged_coarse_mesh p)
  = map tagged_cell
        (fst (hyper_shell (inner_radius (parameters p))
                          (outer_radius (parameters p)))).
Proof.
  unfold tagged_coarse_mesh, tag_manifold_ids. cbn.
  set (mesh := hyper_shell _ _).
  pose proof (tag_active_cells_cells (fst mesh) (snd mesh)) as H.
  destruct (tag_active_cells _ _); exact H.
Qed.

Lemma tagged_coarse_mesh_faces (p : CDRProblem) (j : nat) :
  let mesh := hyper_shell (inner_radius (parameters p))
                          (outer_radius (parameters p)) in
  nth_error (tria_faces (tagged_coarse_mesh p)) j
  = if touched (fst mesh) j
    then option_map (face_set_manifold_id 0) (nth_error (snd mesh) j)
    else nth_error (snd mesh) j.
Proof.
  cbv zeta. unfold tagged_coarse_mesh, tag_manifold_ids. cbn.
  set (mesh := hyper_shell _ _).
  pose proof (tag_active_cells_faces (fst mesh) (snd mesh) j) as H.
  destruct (tag_active_cells _ _); exact H.
Qed.

End MeshLemmas.

(** ** One pass through the loop body *)

Section BodyLemmas.

Context {A : Arith} {B : Backend A}.

Lemma same_setup_refl (p : CDRProblem) : same_setup p p.
Proof. unfold same_setup. auto 10. Qed.

Lemma same_setup_trans (p q r : CDRProblem) :
  same_setup p q -> same_setup q r -> same_setup p r.
Proof.
  unfold same_setup. intros H1 H2.
  repeat match goal with H : _ /\ _ |- _ => destruct H end.
  repeat split; congruence.
Qed.

Lemma body_ok (i : Z) (cds cds' : Vector) (p p' : CDRProblem) :
  outcome (time_step_body i cds p) = Ok (cds', p') ->
  same_setup p p'
  /\ fp_time (forcing_function p')
     = dadd (fp_time (forcing_function p)) (time_step p)
  /\ save_interval (parameters p) <> 0.
Proof.
  body_cases i p; intros H; try discriminate;
    injection H as <- <-; unfold same_setup; cbn;
    (split; [auto 10|]); (split; [reflexivity|]);
    apply Z.eqb_neq; assumption.
Qed.

Lemma body_iterations (i : Z) (cds : Vector) (p : CDRProblem) :
  iterations (trace (time_step_body i cds p)) = [i].
Proof. body_cases i p; reflexivity. Qed.

Lemma body_time_advances (i : Z) (cds : Vector) (p : CDRProblem) :
  time_advances (trace (time_step_body i cds p)) = [time_step p].
Proof. body_cases i p; reflexivity. Qed.

Lemma body_rhs_assemblies (i : Z) (cds : Vector) (p : CDRProblem) :
  rhs_assemblies (trace (time_step_body i cds p))
  = [(i, dadd (fp_time (forcing_function p)) (time_step p),
      locally_relevant_solution p)].
Proof. body_cases i p; reflexivity. Qed.

Lemma body_solve_steps (i : Z) (cds : Vector) (p : CDRProblem) :
  solve_steps (trace (time_step_body i cds p)) = [i].
Proof. body_cases i p; reflexivity. Qed.

Lemma body_matrix_assemblies (i : Z) (cds : Vector) (p : CDRProblem) :
  matrix_assemblies (trace (time_step_body i cds p)) = [].
Proof. body_cases i p; reflexivity. Qed.

Lemma body_checkpoints (i : Z) (cds : Vector) (p : CDRProblem) :
  checkpoints (trace (time_step_body i cds p))
  = if completed (time_step_body i cds p)
       && (i mod save_interval (parameters p) =? 0)
    then [i] else [].
Proof. unfold completed. body_cases i p; reflexivity. Qed.

Lemma body_files (i : Z) (cds : Vector) (p : CDRProblem) :
  locally_owned_subdomain (triangulation p) = this_mpi_process p ->
  files_written (trace (time_step_body i cds p))
  = flat_map (step_files (n_mpi_processes p) (this_mpi_process p))
             (checkpoints (trace (time_step_body i cds p))).
Proof.
  intros Hr. unfold step_files, piece_name.
  body_cases i p; try reflexivity.
  all: rewrite Hr, !append_assoc; reflexivity.
Qed.

Lemma body_solves (i : Z) (cds : Vector) (p : CDRProblem)
    (n ms : Z) (tol : double) (M : Matrix) (rhs : Vector) :
  In (EvSolve n ms tol M rhs) (trace (time_step_body i cds p)) ->
  n = i
  /\ ms = n_dofs (dof_handler p)
  /\ tol = dmul d_1em6 (l2_norm rhs)
  /\ M = system_matrix p
  /\ exists t u b,
       In (EvCreateSystemRhs n t u b) (trace (time_step_body i cds p))
       /\ rhs = vector_compress b.
Proof.
  body_cases i p; intros H;
    repeat (destruct H as [H|H]; [try discriminate|]); try contradiction;
    injection H as <- <- <- <- <-;
    (do 4 (split; [reflexivity|]));
    do 3 eexists; (split; [right; left; reflexivity | reflexivity]).
Qed.

End BodyLemmas.

(** ** The time loop *)

Section LoopLemmas.

Context {A : Arith} {B : Backend A}.

(** A property of traces that holds of the empty trace, of every pass, and
    of concatenations, holds of the loop. *)
Lemma time_loop_trace_ind (Q : CDRProblem -> list Event -> Prop) :
  (forall p, Q p []) ->
  (forall p p' a b, same_setup p p' -> Q p a -> Q p' b -> Q p (a ++ b)%list) ->
  (forall i cds p, Q p (trace (time_step_body i cds p))) ->
  forall fuel i cur cds p, Q p (trace (time_loop fuel i cur cds p)).
Proof.
  intros Hnil Happ Hbody. induction fuel as [|fuel IH]; intros i cur cds p;
    cbn [time_loop].
  - apply Hnil.
  - destruct (i <? n_time_steps (parameters p)); [|apply Hnil].
    rewrite trace_bind.
    destruct (outcome (time_step_body i cds p)) as [[cds' p']|e|] eqn:E.
    + apply Happ with p'; [apply body_ok in E; tauto|apply Hbody|apply IH].
    + rewrite app_nil_r. apply Hbody.
    + rewrite app_nil_r. apply Hbody.
Qed.

Lemma time_loop_frame (fuel : nat) (i : Z) (cur : double) (cds : Vector)
    (p p' : CDRProblem) :
  outcome (time_loop fuel i cur cds p) = Ok p' -> same_setup p p'.
Proof.
  revert i cur cds p. induction fuel as [|fuel IH]; intros i cur cds p;
    cbn [time_loop].
  - discriminate.
  - destruct (i <? n_time_steps (parameters p)).
    + intros H. apply outcome_bind_ok in H. destruct H as ([cds1 p1] & E & H).
      apply body_ok in E. apply IH in H.
      eapply same_setup_trans; [apply E|exact H].
    + cbn. intros [= <-]. apply same_setup_refl.
Qed.

Lemma time_loop_matrix_assemblies (fuel : nat) (i : Z) (cur : double)
    (cds : Vector) (p : CDRProblem) :
  matrix_assemblies (trace (time_loop fuel i cur cds p)) = [].
Proof.
  apply (time_loop_trace_ind (fun _ tr => matrix_assemblies tr = [])).
  - reflexivity.
  - intros q q' a b _ Ha Hb. unfold matrix_assemblies in *.
    now rewrite flat_map_app, Ha, Hb.
  - intros. apply body_matrix_assemblies.
Qed.

Lemma time_loop_solve_steps (fuel : nat) (i : Z) (cur : double)
    (cds : Vector) (p : CDRProblem) :
  solve_steps (trace (time_loop fuel i cur cds p))
  = iterations (trace (time_loop fuel i cur cds p)).
Proof.
  apply (time_loop_trace_ind (fun _ tr => solve_steps tr = iterations tr)).
  - reflexivity.
  - intros q q' a b _ Ha Hb. unfold solve_steps, iterations in *.
    now rewrite !flat_map_app, Ha, Hb.
  - intros. now rewrite body_solve_steps, body_iterations.
Qed.

Lemma time_loop_time_advances (fuel : nat) (i : Z) (cur : double)
    (cds : Vector) (p : CDRProblem) :
  Forall (eq (time_step p)) (time_advances (trace (time_loop fuel i cur cds p))).
Proof.
  apply (time_loop_trace_ind
           (fun q tr => Forall (eq (time_step q)) (time_advances tr))).
  - constructor.
  - intros q q' a b Hs Ha Hb. unfold time_advances in *.
    rewrite flat_map_app. apply Forall_app. split; [assumption|].
    destruct Hs as (_ & <- & _). assumption.
  - intros. rewrite body_time_advances. repeat constructor.
Qed.

Lemma time_loop_solves (fuel : nat) (i : Z) (cur : double) (cds : Vector)
    (p : CDRProblem) (n ms : Z) (tol : double) (M : Matrix) (rhs : Vector) :
  In (EvSolve n ms tol M rhs) (trace (time_loop fuel i cur cds p)) ->
  ms = n_dofs (dof_handler p)
  /\ tol = dmul d_1em6 (l2_norm rhs)
  /\ M = system_matrix p
  /\ exists t u b,
       In (EvCreateSystemRhs n t u b) (trace (time_loop fuel i cur cds p))
       /\ rhs = vector_compress b.
Proof.
  apply (time_loop_trace_ind
           (fun q tr =>
              In (EvSolve n ms tol M rhs) tr ->
              ms = n_dofs (dof_handler q)
              /\ tol = dmul d_1em6 (l2_norm rhs)
              /\ M = system_matrix q
              /\ exists t u b,
                   In (EvCreateSystemRhs n t u b) tr
                   /\ rhs = vector_compress b)).
  - intros q [].
  - intros q q' a b Hs Ha Hb Hin. apply in_app_or in Hin.
    destruct Hs as (_ & _ & _ & _ & _ & Hdh & Hm & _).
    destruct Hin as [Hin|Hin].
    + destruct (Ha Hin) as (? & ? & ? & t & u & c & Hc & ?).
      repeat split; try assumption.
      exists t, u, c. split; [apply in_or_app; now left|assumption].
    + destruct (Hb Hin) as (? & ? & ? & t & u & c & Hc & ?).
      repeat split; try congruence.
      exists t, u, c. split; [apply in_or_app; now right|assumption].
  - intros j c q Hin. apply body_solves in Hin. tauto.
Qed.

Lemma time_loop_files (fuel : nat) (i : Z) (cur : double) (cds : Vector)
    (p : CDRProblem) :
  locally_owned_subdomain (triangulation p) = this_mpi_process p ->
  files_written (trace (time_loop fuel i cur cds p))
  = flat_map (step_files (n_mpi_processes p) (this_mpi_process p))
             (checkpoints (trace (time_loop fuel i cur cds p))).
Proof.
  apply (time_loop_trace_ind
           (fun q tr =>
              locally_owned_subdomain (triangulation q) = this_mpi_process q ->
              files_written tr
              = flat_map (step_files (n_mpi_processes q) (this_mpi_process q))
                         (checkpoints tr))).
  - reflexivity.
  - intros q q' a b Hs Ha Hb Hr.
    destruct Hs as (_ & _ & HP & Hrank & Ht & _).
    unfold files_written, checkpoints in *.
    rewrite !flat_map_app, Ha by assumption.
    rewrite Hb by congruence. now rewrite HP, Hrank.
  - intros j c q. apply body_files.
Qed.

End LoopLemmas.

(** ** Counting *)

Lemma uint_range_from (n : Z) : uint_range n = uint_from 0 n.
Proof. unfold uint_range, uint_from. now rewrite Z.sub_0_r. Qed.

Lemma uint_from_nil (i m : Z) : m <= i -> uint_from i m = [].
Proof.
  intros H. unfold uint_from.
  replace (Z.to_nat (m - i)) with O by lia. reflexivity.
Qed.

Lemma uint_from_cons (i m : Z) :
  0 <= i < m -> uint_from i m = i :: uint_from (i + 1) m.
Proof.
  intros H. unfold uint_from.
  replace (Z.to_nat (m - i)) with (S (Z.to_nat (m - (i + 1)))) by lia.
  cbn [seq map]. rewrite Z2Nat.id by lia.
  replace (Z.to_nat (i + 1)) with (S (Z.to_nat i)) by lia. reflexivity.
Qed.

Lemma uint_range_succ (n : Z) :
  0 <= n -> uint_range (n + 1) = (uint_range n ++ [n])%list.
Proof.
  intros H. unfold uint_range.
  replace (Z.to_nat (n + 1)) with (S (Z.to_nat n)) by lia.
  rewrite seq_S, map_app. cbn [map Nat.add]. now rewrite Z2Nat.id.
Qed.

Lemma ceil_div_spec (n k : Z) :
  0 < k -> (ceil_div n k - 1) * k < n <= ceil_div n k * k.
Proof.
  intros Hk. unfold ceil_div.
  pose proof (Z.div_mod (n + k - 1) k ltac:(lia)) as E.
  pose proof (Z.mod_pos_bound (n + k - 1) k Hk) as Hb. nia.
Qed.

Lemma ceil_div_unique (n k c : Z) :
  0 < k -> (c - 1) * k < n <= c * k -> ceil_div n k = c.
Proof.
  intros Hk Hc. pose proof (ceil_div_spec n k Hk) as Hs. nia.
Qed.

Lemma ceil_div_succ (n k : Z) :
  0 < k -> 0 <= n ->
  ceil_div (n + 1) k
  = if n mod k =? 0 then ceil_div n k + 1 else ceil_div n k.
Proof.
  intros Hk Hn.
  pose proof (ceil_div_spec n k Hk) as Hs.
  pose proof (Z.div_mod n k ltac:(lia)) as E.
  pose proof (Z.mod_pos_bound n k Hk) as Hb.
  set (c := ceil_div n k) in *. set (q := n / k) in *.
  set (r := n mod k) in *.
  destruct (Z.eqb_spec r 0) as [H0|H0]; apply ceil_div_unique;
    try assumption.
  - assert (q = c) by nia. nia.
  - assert (n < c * k).
    { destruct (Z.eq_dec n (c * k)) as [En|En]; [|lia].
      assert (Hr : k * (c - q) = r) by lia.
      assert (0 < c - q < 1) by nia. lia. }
    lia.
Qed.

Lemma ceil_div_multiple (n k : Z) :
  0 < k -> 0 <= n -> n mod k = 0 -> ceil_div n k * k = n.
Proof.
  intros Hk Hn H0.
  pose proof (Z.div_mod n k ltac:(lia)) as E.
  rewrite (ceil_div_unique n k (n / k)); nia.
Qed.

Lemma ceil_div_nonneg (n k : Z) : 0 < k -> 0 <= n -> 0 <= ceil_div n k.
Proof. intros Hk Hn. pose proof (ceil_div_spec n k Hk). nia. Qed.

(** The multiples of [k] below [n] are [0, k, ..., (ceil(n/k) - 1) k]. *)
Lemma multiples_below (n k : Z) :
  0 < k -> 0 <= n ->
  filter (fun i => i mod k =? 0) (uint_range n)
  = map (fun c => c * k) (uint_range (ceil_div n k)).
Proof.
  intros Hk Hn. pattern n. apply natlike_ind; [|clear n Hn|assumption].
  - replace (ceil_div 0 k) with 0; [reflexivity|].
    symmetry. apply ceil_div_unique; lia.
  - intros n Hn IH. unfold Z.succ.
    rewrite uint_range_succ, filter_app, IH, ceil_div_succ by assumption.
    cbn [filter].
    destruct (Z.eqb_spec (n mod k) 0) as [H0|H0].
    + rewrite uint_range_succ, map_app by now apply ceil_div_nonneg.
      cbn [map]. now rewrite ceil_div_multiple.
    + now rewrite app_nil_r.
Qed.

Lemma uint_range_length (n : Z) : List.length (uint_range n) = Z.to_nat n.
Proof. unfold uint_range. now rewrite length_map, length_seq. Qed.

(** ** The order of the passes *)

Section LoopOrder.

Context {A : Arith} {B : Backend A}.

Lemma completed_bind {T U} (m : Run T) (k : T -> Run U) :
  completed (bind m k)
  = match outcome m with
    | Ok x => completed (k x)
    | _ => false
    end.
Proof.
  unfold completed. rewrite outcome_bind. destruct (outcome m); reflexivity.
Qed.

Lemma body_never_out_of_fuel (i : Z) (cds : Vector) (p : CDRProblem) :
  outcome (time_step_body i cds p) <> OutOfFuel.
Proof.
  body_cases i p; discriminate.
Qed.

Lemma uint_wrap_succ (i n : Z) :
  is_uint n -> 0 <= i < n -> uint_wrap (i + 1) = i + 1.
Proof.
  unfold is_uint, uint_wrap. intros Hn Hi. apply Z.mod_small. lia.
Qed.

(** With enough fuel the loop ends by itself, its passes are numbered
    [i, i + 1, ...] without a gap, and a loop that ends normally has made
    all of them. *)
Lemma time_loop_iterations (fuel : nat) (i : Z) (cur : double)
    (cds : Vector) (p : CDRProblem) :
  let N := n_time_steps (parameters p) in
  let k := save_interval (parameters p) in
  let loop := time_loop fuel i cur cds p in
  is_uint N -> 0 <= i <= N -> (Z.to_nat (N - i) < fuel)%nat ->
  outcome loop <> OutOfFuel
  /\ (exists m, i <= m <= N /\ iterations (trace loop) = uint_from i m
                /\ (completed loop = true -> m = N))
  /\ (completed loop = true ->
      checkpoints (trace loop)
      = filter (fun j => j mod k =? 0) (uint_from i N)).
Proof.
  cbv zeta. revert i cur cds p.
  induction fuel as [|fuel IH]; intros i cur cds p HN Hi Hf; [lia|].
  cbn [time_loop].
  destruct (Z.ltb_spec i (n_time_steps (parameters p))) as [Hlt|Hge].
  - rewrite outcome_bind, completed_bind, trace_bind.
    unfold iterations, checkpoints. rewrite !flat_map_app.
    fold (iterations (trace (time_step_body i cds p))).
    fold (checkpoints (trace (time_step_body i cds p))).
    rewrite body_iterations, body_checkpoints. unfold completed in *.
    pose proof (body_never_out_of_fuel i cds p) as Hb.
    destruct (outcome (time_step_body i cds p)) as [[cds' p']|e|] eqn:E;
      [|clear IH|contradiction].
    + apply body_ok in E. destruct E as ((Hp & Hdt & _) & _ & _).
      rewrite (uint_wrap_succ i _ HN) by lia. cbn [fst snd].
      specialize (IH (i + 1) (dadd cur (time_step p)) cds' p').
      rewrite Hp in IH.
      destruct IH as (Ho & (m & Hm & Hit & Hc) & Hck); [assumption|lia|lia|].
      split; [exact Ho|]. split.
      * exists m. split; [lia|]. split; [|exact Hc].
        fold (iterations (trace (time_loop fuel (i + 1)
                                   (dadd cur (time_step p)) cds' p'))).
        rewrite Hit. destruct (Z.eq_dec m (i + 1)) as [->|Hne].
        -- rewrite (uint_from_cons i (i + 1)) by lia. reflexivity.
        -- rewrite (uint_from_cons i m) by lia. reflexivity.
      * intros Hdone.
        fold (checkpoints (trace (time_loop fuel (i + 1)
                                    (dadd cur (time_step p)) cds' p'))).
        rewrite (Hck Hdone), (uint_from_cons i) by lia.
        cbn [filter andb]. destruct (i mod _ =? 0); reflexivity.
    + split; [discriminate|]. split; [|discriminate].
      exists (i + 1). split; [lia|]. split; [|discriminate].
      rewrite (uint_from_cons i), uint_from_nil by lia. reflexivity.
  - assert (i = n_time_steps (parameters p)) as -> by lia.
    cbn. split; [discriminate|]. split.
    + exists (n_time_steps (parameters p)). split; [lia|].
      rewrite uint_from_nil by lia. auto.
    + intros _. rewrite uint_from_nil by lia. reflexivity.
Qed.

Lemma advanced_shift (k : nat) (t dt : double) :
  advanced k (dadd t dt) dt = advanced (S k) t dt.
Proof. induction k as [|k IH]; cbn in *; [reflexivity | now rewrite IH]. Qed.

(** The [j]-th right-hand-side assembly of the loop is that of pass
    [i + j]; the forcing function has been advanced [j + 1] times by then,
    and the first assembly reads the ghosted solution the loop was entered
    with. *)
Lemma time_loop_assemblies (fuel : nat) (i : Z) (cur : double)
    (cds : Vector) (p : CDRProblem) (j : nat) (n : Z) (t : double)
    (u : Vector) :
  is_uint (n_time_steps (parameters p)) -> 0 <= i ->
  nth_error (rhs_assemblies (trace (time_loop fuel i cur cds p))) j
  = Some (n, t, u) ->
  n = i + Z.of_nat j
  /\ n < n_time_steps (parameters p)
  /\ t = advanced (S j) (fp_time (forcing_function p)) (time_step p)
  /\ (j = O -> u = locally_relevant_solution p).
Proof.
  intros HN. revert i cur cds p HN j.
  induction fuel as [|fuel IH]; intros i cur cds p HN j Hi; cbn [time_loop].
  - destruct j; discriminate.
  - destruct (Z.ltb_spec i (n_time_steps (parameters p))) as [Hlt|Hge].
    2:{ destruct j; discriminate. }
    rewrite trace_bind. unfold rhs_assemblies. rewrite flat_map_app.
    fold (rhs_assemblies (trace (time_step_body i cds p))).
    rewrite body_rhs_assemblies. cbn [app].
    destruct j as [|j].
    + cbn. intros [= <- <- <-]. split; [lia|]. split; [lia|].
      split; reflexivity.
    + cbn [nth_error].
      destruct (outcome (time_step_body i cds p)) as [[cds' p']|e|] eqn:E;
        try (destruct j; discriminate).
      apply body_ok in E. destruct E as ((Hp & Hdt & _) & Hft & _).
      cbn [fst snd]. rewrite (uint_wrap_succ i _ HN) by lia.
      intros H. apply IH in H; [|now rewrite Hp|lia].
      destruct H as (Hn & Hb & Ht & _). rewrite Hp in Hb.
      split; [lia|]. split; [lia|]. split; [|discriminate].
      rewrite Ht, Hft, Hdt. apply advanced_shift.
Qed.

Lemma time_loop_first_assembly (fuel : nat) (i : Z) (cur : double)
    (cds : Vector) (p : CDRProblem) :
  nth_error (rhs_assemblies (trace (time_loop (S fuel) i cur cds p))) 0
  = if i <? n_time_steps (parameters p)
    then Some (i, dadd (fp_time (forcing_function p)) (time_step p),
               locally_relevant_solution p)
    else None.
Proof.
  cbn [time_loop].
  destruct (i <? n_time_steps (parameters p)); [|reflexivity].
  rewrite trace_bind. unfold rhs_assemblies. rewrite flat_map_app.
  fold (rhs_assemblies (trace (time_step_body i cds p))).
  rewrite body_rhs_assemblies. reflexivity.
Qed.

End LoopOrder.

(** ** [run] and [main] *)

Section RunStructure.

Context {A : Arith} {B : Backend A}.

Lemma tagged_coarse_mesh_subdomain (p : CDRProblem) :
  locally_owned_subdomain (tagged_coarse_mesh p)
  = locally_owned_subdomain (triangulation p).
Proof.
  unfold tagged_coarse_mesh, tag_manifold_ids.
  destruct (tag_active_cells _ _). reflexivity.
Qed.

Lemma vector_reinit_zero (idx : IndexSet) :
  identically_zero (vector_reinit idx).
Proof.
  unfold identically_zero, vector_reinit. apply Forall_forall.
  intros e He. apply in_map_iff in He. destruct He as (i & <- & _).
  reflexivity.
Qed.

Lemma setup_geometry_run (p : CDRProblem) :
  exists q,
    setup_geometry p = ret q
    /\ dof_handler q
       = {| dh_triangulation := refined_mesh p; dh_fe_degree := fe p |}
    /\ parameters q = parameters p
    /\ time_step q = time_step p
    /\ quad q = quad p
    /\ n_mpi_processes q = n_mpi_processes p
    /\ this_mpi_process q = this_mpi_process p
    /\ locally_owned_subdomain (triangulation q)
       = locally_owned_subdomain (triangulation p)
    /\ forcing_function q = forcing_function p
    /\ locally_relevant_solution q
       = vector_reinit (locally_relevant_dofs q).
Proof.
  eexists. split; [reflexivity|]. cbn -[refined_mesh].
  repeat (split; [reflexivity|]). split; [|split; reflexivity].
  unfold refined_mesh. cbn. apply tagged_coarse_mesh_subdomain.
Qed.

Lemma setup_matrices_run (p : CDRProblem) :
  exists M0 q,
    setup_matrices p
    = ([EvCreateSystemMatrix (time_step p) M0;
        EvPreconditionerInitialize (matrix_compress M0)], Ok q)
    /\ system_matrix q = matrix_compress M0
    /\ dof_handler q = dof_handler p
    /\ parameters q = parameters p
    /\ time_step q = time_step p
    /\ n_mpi_processes q = n_mpi_processes p
    /\ this_mpi_process q = this_mpi_process p
    /\ triangulation q = triangulation p
    /\ forcing_function q = forcing_function p
    /\ locally_relevant_dofs q = locally_relevant_dofs p
    /\ locally_relevant_solution q = locally_relevant_solution p.
Proof.
  do 2 eexists. split; [reflexivity|]. cbn. auto 12.
Qed.

(** [run] assembles the operator, builds the preconditioner and enters the
    time loop with a problem [q] that holds the compressed operator and a
    zero ghosted solution. *)
Lemma run_decompose (p : CDRProblem) :
  exists M0 q,
    trace (run p)
    = EvCreateSystemMatrix (time_step p) M0
        :: EvPreconditionerInitialize (matrix_compress M0)
        :: trace (time_iterate q)
    /\ outcome (run p) = outcome (time_iterate q)
    /\ system_matrix q = matrix_compress M0
    /\ dof_handler q
       = {| dh_triangulation := refined_mesh p; dh_fe_degree := fe p |}
    /\ parameters q = parameters p
    /\ time_step q = time_step p
    /\ n_mpi_processes q = n_mpi_processes p
    /\ this_mpi_process q = this_mpi_process p
    /\ locally_owned_subdomain (triangulation q)
       = locally_owned_subdomain (triangulation p)
    /\ forcing_function q = forcing_function p
    /\ locally_relevant_solution q
       = vector_reinit (locally_relevant_dofs q).
Proof.
  destruct (setup_geometry_run p)
    as (q1 & Hg & Hdh1 & Hp1 & Hdt1 & Hq1 & HP1 & Hr1 & Hs1 & Hf1 & Hu1).
  destruct (setup_matrices_run q1)
    as (M0 & q & Hm & HM & Hdh & Hp & Hdt & HP & Hr & Ht & Hf & Hd & Hu).
  exists M0, q. unfold run.
  rewrite Hg, bind_ret_l, trace_bind, outcome_bind, Hm.
  cbn [trace outcome fst snd app]. rewrite Hdt1.
  repeat split; try congruence.
Qed.

Lemma main_unfold (dim P r : Z) (params : Parameters) :
  main dim P r params
  = match outcome (CDRProblem_ctor dim P r params) with
    | Ok p => run p
    | Abort e => ([], Abort e)
    | OutOfFuel => ([], OutOfFuel)
    end.
Proof.
  unfold main. rewrite (run_eta (CDRProblem_ctor dim P r params)), ctor_trace.
  unfold bind. destruct (outcome _) as [p|e|]; try reflexivity.
  destruct (run p); reflexivity.
Qed.

Lemma bind_never_out_of_fuel {T U} (m : Run T) (k : T -> Run U) :
  outcome m <> OutOfFuel -> (forall x, outcome (k x) <> OutOfFuel) ->
  outcome (bind m k) <> OutOfFuel.
Proof.
  intros Hm Hk. rewrite outcome_bind.
  destruct (outcome m); [apply Hk|discriminate|contradiction].
Qed.

Lemma ctor_never_out_of_fuel (dim P r : Z) (params : Parameters) :
  outcome (CDRProblem_ctor dim P r params) <> OutOfFuel.
Proof.
  unfold CDRProblem_ctor, split_convection_field.
  repeat (apply bind_never_out_of_fuel; [|intros ?]);
    unfold fp_initialize, Assert, lift, substr;
    repeat match goal with
           | |- context [if ?c then _ else _] => destruct c
           end; cbn; discriminate.
Qed.

Lemma body_has_solve (i : Z) (cds : Vector) (p : CDRProblem) :
  exists ms tol M rhs,
    In (EvSolve i ms tol M rhs) (trace (time_step_body i cds p)).
Proof.
  unfold time_step_body. rewrite !trace_bind. cbn [outcome emit snd].
  do 4 eexists. apply in_or_app. right. apply in_or_app. right.
  apply in_or_app. left. left. reflexivity.
Qed.

(** A run with at least one time step calls the solver in pass 0. *)
Lemma run_first_solve (p : CDRProblem) :
  0 < n_time_steps (parameters p) ->
  exists ms tol M rhs, In (EvSolve 0 ms tol M rhs) (trace (run p)).
Proof.
  intros Hn.
  destruct (run_decompose p) as (M0 & q & Htr & _ & _ & _ & Hq & _).
  rewrite Htr. unfold time_iterate. cbn [time_loop]. rewrite Hq.
  apply Z.ltb_lt in Hn. rewrite Hn, trace_bind.
  destruct (body_has_solve 0 (vector_reinit (locally_owned_dofs q)) q)
    as (ms & tol & M & rhs & Hin).
  exists ms, tol, M, rhs. right. right. apply in_or_app. now left.
Qed.

End RunStructure.

Section WholeProgram.

Context {A : Arith} {B : Backend A}.

Lemma bind_never_aborts_with {T U} (exc : Exception) (m : Run T)
    (k : T -> Run U) :
  outcome m <> Abort exc -> (forall x, outcome (k x) <> Abort exc) ->
  outcome (bind m k) <> Abort exc.
Proof.
  intros Hm Hk. rewrite outcome_bind. revert Hm.
  destruct (outcome m); intros Hm; [apply Hk|congruence|discriminate].
Qed.

Lemma ctor_dim2_implemented (P r : Z) (params : Parameters) :
  outcome (CDRProblem_ctor 2 P r params) <> Abort ExcNotImplemented.
Proof.
  unfold CDRProblem_ctor, split_convection_field.
  repeat (apply bind_never_aborts_with; [|intros ?]);
    unfold fp_initialize, Assert, lift, substr;
    repeat match goal with
           | |- context [if ?c then _ else _] => destruct c eqn:?
           end; cbn; discriminate.
Qed.

(** The whole program: either the constructor throws and nothing else
    happens, or [run] assembles the operator once and enters the time loop
    with a problem [q] built from the configuration. *)
Lemma main_decompose (dim P r : Z) (params : Parameters) :
  (exists e, outcome (CDRProblem_ctor dim P r params) = Abort e
             /\ main dim P r params = ([], Abort e))
  \/ (exists p M0 q,
        outcome (CDRProblem_ctor dim P r params) = Ok p
        /\ trace (main dim P r params)
           = EvCreateSystemMatrix (time_step p) M0
               :: EvPreconditionerInitialize (matrix_compress M0)
               :: trace (time_iterate q)
        /\ outcome (main dim P r params) = outcome (time_iterate q)
        /\ system_matrix q = matrix_compress M0
        /\ dof_handler q
           = {| dh_triangulation := refined_mesh p; dh_fe_degree := fe p |}
        /\ parameters q = params
        /\ time_step q
           = ddiv (dsub (stop_time params) (start_time params))
                  (d_of_uint (n_time_steps params))
        /\ n_mpi_processes q = P
        /\ this_mpi_process q = r
        /\ locally_owned_subdomain (triangulation q) = r
        /\ fp_time (forcing_function q) = start_time params
        /\ locally_relevant_solution q
           = vector_reinit (locally_relevant_dofs q)).
Proof.
  rewrite main_unfold.
  pose proof (ctor_never_out_of_fuel dim P r params) as Hf.
  destruct (outcome (CDRProblem_ctor dim P r params)) as [p|e|] eqn:E;
    [right|left; eauto|contradiction].
  apply ctor_fields in E. destruct E as (Hp & Hdt & HP & Hr & Hs & Hft).
  destruct (run_decompose p)
    as (M0 & q & Htr & Ho & HM & Hdh & Hq & Hqdt & HqP & Hqr & Hqs & Hqf & Hu).
  exists p, M0, q. repeat split; try congruence.
Qed.

End WholeProgram.

(** ** The driver against the reference *)

Section Refinement.

Context {A : Arith} {B : Backend A}.

Lemma set_time_same (f : FunctionParser) : set_time (fp_time f) f = f.
Proof. destruct f. reflexivity. Qed.

Lemma pair_snd_first {X Y} (a a' : X) (b b' : Y) :
  b = b' -> a = a' -> (a, b) = (a', b').
Proof. congruence. Qed.

Lemma write_checkpoint_ok (i : Z) (q : CDRProblem) :
  outcome (write_checkpoint i q) = Ok tt.
Proof.
  unfold write_checkpoint. rewrite outcome_bind. cbn [outcome emit snd].
  destruct (this_mpi_process q =? 0); reflexivity.
Qed.

Lemma run_prepared (p : CDRProblem) :
  run p
  = (EvCreateSystemMatrix (time_step p) (assembled_matrix p)
       :: EvPreconditionerInitialize (run_matrix p)
       :: trace (time_iterate (prepared p)),
     outcome (time_iterate (prepared p))).
Proof.
  rewrite (run_eta (run p)). unfold run, setup_geometry.
  rewrite bind_ret_l, trace_bind, outcome_bind. reflexivity.
Qed.

Lemma prepared_holds (p : CDRProblem) :
  holds_state p (initial_state p)
              (vector_reinit (locally_owned_dofs (prepared p))) (prepared p).
Proof.
  unfold holds_state. cbn -[refined_mesh].
  rewrite set_time_same. repeat split; reflexivity.
Qed.

(** The three calls every pass from state [s] starts with. *)
Lemma body_refines (i : Z) (cds : Vector) (q p : CDRProblem)
    (s : LoopState) :
  holds_state p s cds q ->
  let head :=
    [EvAdvanceTime i (time_step p);
     EvCreateSystemRhs i (dadd (ls_forcing_time s) (time_step p))
                       (ls_solution s) (pass_assembled p s);
     EvSolve i (n_dofs (run_dof_handler p))
             (dmul d_1em6 (l2_norm (pass_rhs p s)))
             (run_matrix p) (pass_rhs p s)] in
  match next_state p s with
  | None => time_step_body i cds q = (head, Abort NoConvergence)
  | Some s' =>
      if save_interval (parameters p) =? 0
      then time_step_body i cds q = (head, Abort DivisionByZero)
      else exists q',
          holds_state p s' (ls_distributed s') q'
          /\ time_step_body i cds q
             = ((head ++ if i mod save_interval (parameters p) =? 0
                         then trace (write_checkpoint i q')
                         else [])%list,
                Ok (ls_distributed s', q'))
  end.
Proof.
  intros (Hp & Hdt & HP & Hr & Ht & Hdh & Hq & Hcf & HC & HM & HPc & Hf
          & Hu & Hrhs & Hcds).
  cbv zeta.
  unfold next_state, pass_solve, pass_rhs, pass_assembled, time_step_body.
  rewrite Hp, Hdt, Hdh, Hq, Hcf, HC, HM, HPc, Hf, Hu, Hrhs, Hcds.
  unfold vector_set_zero, advance_time. cbn [fp_time set_time].
  destruct (gmres_solve _ _ _ _ _ _) as [solved|]; [|reflexivity].
  destruct (save_interval (parameters p) =? 0); [reflexivity|].
  eexists. split.
  2:{ etransitivity; [apply run_eta|]. apply pair_snd_first.
      - rewrite !outcome_bind. cbn [outcome emit snd].
        destruct (i mod save_interval (parameters p) =? 0);
          [rewrite write_checkpoint_ok|]; reflexivity.
      - rewrite !trace_bind. cbn [outcome emit snd trace fst app].
        rewrite ?outcome_bind. cbn [outcome emit snd trace fst app].
        destruct (i mod save_interval (parameters p) =? 0).
        + rewrite write_checkpoint_ok. cbn [trace ret fst].
          rewrite app_nil_r. reflexivity.
        + reflexivity. }
  unfold holds_state. cbn. repeat split; try assumption; reflexivity.
Qed.


Lemma write_checkpoint_events (i : Z) (q : CDRProblem) (ev : Event) :
  In ev (trace (write_checkpoint i q)) ->
  match ev with
  | EvWriteVtu j _ u _ => j = i /\ u = locally_relevant_solution q
  | EvWritePvtu j _ _ => j = i
  | _ => False
  end.
Proof.
  unfold write_checkpoint. rewrite trace_bind. cbn [outcome emit snd trace fst].
  destruct (this_mpi_process q =? 0); cbn [emit ret fst trace app];
    intros H.
  - destruct H as [<-|[<-|[]]]; [split; reflexivity|reflexivity].
  - destruct H as [<-|[]]. split; reflexivity.
Qed.

(** The loop entered at pass [i] with variables that hold [s] ends as the
    remaining steps of the reference end. *)
Lemma time_loop_refines (p : CDRProblem) (fuel : nat) :
  forall (i : Z) (cur : double) (cds : Vector) (q : CDRProblem)
         (s : LoopState),
    holds_state p s cds q ->
    is_uint (n_time_steps (parameters p)) ->
    save_interval (parameters p) <> 0 ->
    0 <= i <= n_time_steps (parameters p) ->
    (Z.to_nat (n_time_steps (parameters p) - i) < fuel)%nat ->
    match state_from (Z.to_nat (n_time_steps (parameters p) - i)) p s with
    | Some s' =>
        exists q', outcome (time_loop fuel i cur cds q) = Ok q'
                   /\ holds_state p s' (ls_distributed s') q'
    | None => outcome (time_loop fuel i cur cds q) = Abort NoConvergence
    end.
Proof.
  induction fuel as [|fuel IH]; intros i cur cds q s Hs Hn Hk Hi Hfuel;
    [lia|].
  cbn [time_loop].
  assert (Hp : parameters q = parameters p) by apply Hs. rewrite Hp.
  destruct (i <? n_time_steps (parameters p)) eqn:Hlt.
  - apply Z.ltb_lt in Hlt.
    replace (Z.to_nat (n_time_steps (parameters p) - i))
      with (S (Z.to_nat (n_time_steps (parameters p) - (i + 1)))) by lia.
    cbn [state_from]. rewrite outcome_bind.
    pose proof (body_refines i cds q p s Hs) as Hb. cbv zeta in Hb.
    destruct (next_state p s) as [s'|].
    + apply Z.eqb_neq in Hk. rewrite Hk in Hb.
      destruct Hb as (q' & Hs' & Hb). rewrite Hb. cbn [outcome snd fst].
      assert (Hw : uint_wrap (i + 1) = i + 1).
      { unfold uint_wrap. apply Z.mod_small. unfold is_uint in Hn. lia. }
      rewrite Hw. apply IH; try assumption; lia.
    + rewrite Hb. reflexivity.
  - apply Z.ltb_ge in Hlt.
    replace (Z.to_nat (n_time_steps (parameters p) - i)) with O by lia.
    cbn [state_from]. exists q. split; [reflexivity|].
    destruct Hs as (H1 & H2 & H3 & H4 & H5 & H6 & H7 & H8 & H9 & H10 & H11
                    & H12 & H13 & H14 & H15).
    unfold holds_state. rewrite <- H15. tauto.
Qed.

(** What the loop logs are the calls of the reference: pass [j] assembles
    and solves from the state [j - i] steps after [s]. *)
Lemma time_loop_log (p : CDRProblem) (fuel : nat) :
  forall (i : Z) (cur : double) (cds : Vector) (q : CDRProblem)
         (s : LoopState) (ev : Event),
    holds_state p s cds q ->
    is_uint (n_time_steps (parameters p)) ->
    0 <= i ->
    In ev (trace (time_loop fuel i cur cds q)) ->
    match ev with
    | EvCreateSystemRhs j t u b =>
        i <= j < n_time_steps (parameters p)
        /\ exists sj, state_from (Z.to_nat (j - i)) p s = Some sj
                      /\ t = dadd (ls_forcing_time sj) (time_step p)
                      /\ u = ls_solution sj
                      /\ b = pass_assembled p sj
    | EvSolve j ms tol M rhs =>
        i <= j < n_time_steps (parameters p)
        /\ exists sj, state_from (Z.to_nat (j - i)) p s = Some sj
                      /\ ms = n_dofs (run_dof_handler p)
                      /\ tol = dmul d_1em6 (l2_norm (pass_rhs p sj))
                      /\ M = run_matrix p
                      /\ rhs = pass_rhs p sj
    | EvWriteVtu j _ u _ =>
        i <= j < n_time_steps (parameters p)
        /\ exists sj, state_from (S (Z.to_nat (j - i))) p s = Some sj
                      /\ u = ls_solution sj
    | EvAdvanceTime j dt =>
        i <= j < n_time_steps (parameters p) /\ dt = time_step p
    | EvWritePvtu j _ _ => i <= j < n_time_steps (parameters p)
    | _ => False
    end.
Proof.
  induction fuel as [|fuel IH]; intros i cur cds q s ev Hs Hn Hi Hin;
    [destruct Hin|].
  cbn [time_loop] in Hin.
  assert (Hp : parameters q = parameters p) by apply Hs.
  rewrite Hp in Hin.
  destruct (i <? n_time_steps (parameters p)) eqn:Hlt; [|destruct Hin].
  apply Z.ltb_lt in Hlt.
  assert (Hw : uint_wrap (i + 1) = i + 1).
  { unfold uint_wrap. apply Z.mod_small. unfold is_uint in Hn. lia. }
  rewrite trace_bind in Hin.
  pose proof (body_refines i cds q p s Hs) as Hb. cbv zeta in Hb.
  assert (Hhead :
    In ev [EvAdvanceTime i (time_step p);
           EvCreateSystemRhs i (dadd (ls_forcing_time s) (time_step p))
                             (ls_solution s) (pass_assembled p s);
           EvSolve i (n_dofs (run_dof_handler p))
                   (dmul d_1em6 (l2_norm (pass_rhs p s)))
                   (run_matrix p) (pass_rhs p s)] ->
    match ev with
    | EvCreateSystemRhs j t u b =>
        i <= j < n_time_steps (parameters p)
        /\ exists sj, state_from (Z.to_nat (j - i)) p s = Some sj
                      /\ t = dadd (ls_forcing_time sj) (time_step p)
                      /\ u = ls_solution sj
                      /\ b = pass_assembled p sj
    | EvSolve j ms tol M rhs =>
        i <= j < n_time_steps (parameters p)
        /\ exists sj, state_from (Z.to_nat (j - i)) p s = Some sj
                      /\ ms = n_dofs (run_dof_handler p)
                      /\ tol = dmul d_1em6 (l2_norm (pass_rhs p sj))
                      /\ M = run_matrix p
                      /\ rhs = pass_rhs p sj
    | EvWriteVtu j _ u _ =>
        i <= j < n_time_steps (parameters p)
        /\ exists sj, state_from (S (Z.to_nat (j - i))) p s = Some sj
                      /\ u = ls_solution sj
    | EvAdvanceTime j dt =>
        i <= j < n_time_steps (parameters p) /\ dt = time_step p
    | EvWritePvtu j _ _ => i <= j < n_time_steps (parameters p)
    | _ => False
    end).
  { intros [<-|[<-|[<-|[]]]]; (split; [lia|]);
      rewrite ?Z.sub_diag; try reflexivity;
      exists s; cbn [Z.to_nat state_from]; repeat split; reflexivity. }
  destruct (next_state p s) as [s'|] eqn:Hnext.
  - destruct (save_interval (parameters p) =? 0) eqn:Hk.
    + rewrite Hb in Hin. cbn [trace outcome fst snd] in Hin.
      rewrite app_nil_r in Hin. apply Hhead, Hin.
    + destruct Hb as (q' & Hs' & Hb). rewrite Hb in Hin.
      cbn [trace outcome fst snd] in Hin.
      apply in_app_or in Hin. destruct Hin as [Hin|Hin].
      * apply in_app_or in Hin. destruct Hin as [Hin|Hin];
          [apply Hhead, Hin|].
        destruct (i mod save_interval (parameters p) =? 0); [|destruct Hin].
        apply write_checkpoint_events in Hin.
        destruct ev; try contradiction.
        -- destruct Hin as [-> ->]. split; [lia|].
           exists s'. rewrite Z.sub_diag. cbn [Z.to_nat state_from].
           rewrite Hnext. split; [reflexivity|].
           unfold holds_state in Hs'. tauto.
        -- subst. lia.
      * rewrite Hw in Hin.
        apply (IH _ _ _ _ s') in Hin; [|assumption|assumption|lia].
        destruct ev; try contradiction.
        -- destruct Hin as [Hj ->]. split; [lia|reflexivity].
        -- destruct Hin as (Hj & sj & Hsj & Hrest). split; [lia|].
           exists sj. split; [|exact Hrest].
           replace (Z.to_nat (time_step_n - i))
             with (S (Z.to_nat (time_step_n - (i + 1)))) by lia.
           cbn [state_from]. rewrite Hnext. exact Hsj.
        -- destruct Hin as (Hj & sj & Hsj & Hrest). split; [lia|].
           exists sj. split; [|exact Hrest].
           replace (Z.to_nat (time_step_n - i))
             with (S (Z.to_nat (time_step_n - (i + 1)))) by lia.
           cbn [state_from]. rewrite Hnext. exact Hsj.
        -- destruct Hin as (Hj & sj & Hsj & Hrest). split; [lia|].
           exists sj. split; [|exact Hrest].
           replace (Z.to_nat (time_step_n - i))
             with (S (Z.to_nat (time_step_n - (i + 1)))) by lia.
           cbn [state_from] in Hsj |- *. rewrite Hnext. exact Hsj.
        -- lia.
  - rewrite Hb in Hin. cbn [trace outcome fst snd] in Hin.
    rewrite app_nil_r in Hin. apply Hhead, Hin.
Qed.

End Refinement.

Section RunRefinement.

Context {A : Arith} {B : Backend A}.

Lemma state_from_forcing_time (p : CDRProblem) (k : nat) :
  forall s s',
    state_from k p s = Some s' ->
    ls_forcing_time s' = advanced k (ls_forcing_time s) (time_step p).
Proof.
  induction k as [|k IH]; intros s s' H; cbn [state_from] in H.
  - injection H as <-. reflexivity.
  - destruct (next_state p s) as [s1|] eqn:E; [|discriminate].
    apply IH in H. rewrite H. unfold next_state in E.
    destruct (pass_solve p s); [|discriminate]. injection E as <-.
    cbn [ls_forcing_time]. apply advanced_shift.
Qed.

Lemma prepared_parameters (p : CDRProblem) :
  parameters (prepared p) = parameters p.
Proof. apply (prepared_holds p). Qed.

(** [run] ends as the reference ends. *)
Lemma run_refines (p : CDRProblem) :
  is_uint (n_time_steps (parameters p)) ->
  save_interval (parameters p) <> 0 ->
  match state_after (Z.to_nat (n_time_steps (parameters p))) p with
  | Some s =>
      exists p', outcome (run p) = Ok p'
                 /\ holds_state p s (ls_distributed s) p'
  | None => outcome (run p) = Abort NoConvergence
  end.
Proof.
  intros Hn Hk. rewrite run_prepared. cbn [outcome snd].
  unfold time_iterate. rewrite prepared_parameters.
  pose proof (time_loop_refines p
                (S (Z.to_nat (n_time_steps (parameters p)))) 0
                (start_time (parameters p))
                (vector_reinit (locally_owned_dofs (prepared p)))
                (prepared p) (initial_state p) (prepared_holds p) Hn Hk)
    as H.
  rewrite Z.sub_0_r in H. apply H; unfold is_uint in Hn; lia.
Qed.

(** What [run] logs are the calls of the reference. *)
Lemma run_log (p : CDRProblem) (ev : Event) :
  is_uint (n_time_steps (parameters p)) ->
  In ev (trace (run p)) ->
  match ev with
  | EvCreateSystemMatrix dt M => dt = time_step p /\ M = assembled_matrix p
  | EvPreconditionerInitialize M => M = run_matrix p
  | EvAdvanceTime j dt =>
      0 <= j < n_time_steps (parameters p) /\ dt = time_step p
  | EvCreateSystemRhs j t u b =>
      0 <= j < n_time_steps (parameters p)
      /\ exists sj, state_after (Z.to_nat j) p = Some sj
                    /\ t = dadd (ls_forcing_time sj) (time_step p)
                    /\ u = ls_solution sj
                    /\ b = pass_assembled p sj
  | EvSolve j ms tol M rhs =>
      0 <= j < n_time_steps (parameters p)
      /\ exists sj, state_after (Z.to_nat j) p = Some sj
                    /\ ms = n_dofs (run_dof_handler p)
                    /\ tol = dmul d_1em6 (l2_norm (pass_rhs p sj))
                    /\ M = run_matrix p
                    /\ rhs = pass_rhs p sj
  | EvWriteVtu j _ u _ =>
      0 <= j < n_time_steps (parameters p)
      /\ exists sj, state_after (S (Z.to_nat j)) p = Some sj
                    /\ u = ls_solution sj
  | EvWritePvtu j _ _ => 0 <= j < n_time_steps (parameters p)
  end.
Proof.
  intros Hn. rewrite run_prepared. cbn [trace fst].
  intros [<-|[<-|Hin]]; [split; reflexivity|reflexivity|].
  unfold time_iterate in Hin.
  apply (time_loop_log p _ _ _ _ _ (initial_state p)) in Hin;
    [|apply prepared_holds|exact Hn|lia].
  unfold state_after.
  destruct ev; try contradiction; rewrite ?Z.sub_0_r in Hin; exact Hin.
Qed.

Lemma main_run (dim P r : Z) (params : Parameters) (p : CDRProblem) :
  outcome (CDRProblem_ctor dim P r params) = Ok p ->
  main dim P r params = run p.
Proof. intros H. rewrite main_unfold, H. reflexivity. Qed.

(** The first pass is made whenever there is a step to make. *)
Lemma run_first_assembly (p : CDRProblem) :
  0 < n_time_steps (parameters p) ->
  In (EvCreateSystemRhs 0
        (dadd (fp_time (forcing_function p)) (time_step p))
        (zero_vector (run_relevant_dofs p))
        (pass_assembled p (initial_state p)))
     (trace (run p)).
Proof.
  intros Hn. rewrite run_prepared. cbn [trace fst]. right. right.
  unfold time_iterate. cbn [time_loop]. rewrite prepared_parameters.
  apply Z.ltb_lt in Hn. rewrite Hn. rewrite trace_bind. apply in_or_app. left.
  pose proof (body_refines 0
                (vector_reinit (locally_owned_dofs (prepared p)))
                (prepared p) p (initial_state p) (prepared_holds p)) as Hb.
  cbv zeta in Hb.
  destruct (next_state p (initial_state p)) as [s'|].
  - destruct (save_interval (parameters p) =? 0).
    + rewrite Hb. right. left. reflexivity.
    + destruct Hb as (q' & _ & Hb). rewrite Hb. cbn [trace fst].
      apply in_or_app. left. right. left. reflexivity.
  - rewrite Hb. right. left. reflexivity.
Qed.

End RunRefinement.

Section ZeroVectors.

Context {A : Arith}.

Lemma zero_vector_indices (idx : IndexSet) :
  map fst (zero_vector idx) = idx.
Proof.
  unfold zero_vector. rewrite map_map. cbn [fst]. apply map_id.
Qed.

Lemma zero_vector_zero (idx : IndexSet) :
  identically_zero (zero_vector idx).
Proof.
  unfold identically_zero, zero_vector. apply Forall_forall.
  intros e He. apply in_map_iff in He. destruct He as (i & <- & _).
  reflexivity.
Qed.

Lemma zero_vector_set_zero (idx : IndexSet) :
  map (fun e : Z * double => (fst e, d_zero)) (zero_vector idx)
  = zero_vector idx.
Proof. unfold zero_vector. rewrite map_map. reflexivity. Qed.

End ZeroVectors.

(** ** File names *)

Lemma digit_char_spec (d : Z) :
  0 <= d < 10 ->
  is_digit (digit_char d) = true /\ digit_value (digit_char d) = d.
Proof.
  intros H.
  assert (E : d = 0 \/ d = 1 \/ d = 2 \/ d = 3 \/ d = 4 \/ d = 5 \/ d = 6
              \/ d = 7 \/ d = 8 \/ d = 9) by lia.
  repeat (destruct E as [->|E]; [split; reflexivity|]).
  subst d. split; reflexivity.
Qed.

Lemma decimal_digits_append (fuel : nat) (i : Z) (acc rest : string) :
  decimal_digits fuel i acc ++ rest = decimal_digits fuel i (acc ++ rest).
Proof.
  revert i acc. induction fuel as [|fuel IH]; intros i acc;
    cbn [decimal_digits]; [reflexivity|].
  destruct (i <? 10); [reflexivity|]. now rewrite IH.
Qed.

Lemma parse_decimal_digits (fuel : nat) (i : Z) (acc : string) :
  0 <= i < 10 ^ Z.of_nat fuel ->
  parse_decimal 0 (decimal_digits fuel i acc) = parse_decimal i acc.
Proof.
  revert i acc. induction fuel as [|fuel IH]; intros i acc Hi.
  - cbn in Hi. assert (i = 0) as -> by lia. reflexivity.
  - cbn [decimal_digits].
    rewrite Nat2Z.inj_succ, Z.pow_succ_r in Hi by lia.
    pose proof (Z.mod_pos_bound i 10 ltac:(lia)) as Hm.
    destruct (digit_char_spec (i mod 10) Hm) as [Hd Hv].
    destruct (Z.ltb_spec i 10) as [Hlt|Hge].
    + cbn [parse_decimal]. rewrite Hd, Hv, Z.mod_small by lia.
      f_equal.
    + rewrite IH.
      * cbn [parse_decimal]. rewrite Hd, Hv. f_equal.
        pose proof (Z.div_mod i 10 ltac:(lia)). lia.
      * split; [apply Z.div_pos; lia|].
        apply Z.div_lt_upper_bound; lia.
Qed.

Lemma skip_decimal_digits (fuel : nat) (i : Z) (acc : string) :
  skip_digits (decimal_digits fuel i acc) = skip_digits acc.
Proof.
  revert i acc. induction fuel as [|fuel IH]; intros i acc;
    cbn [decimal_digits]; [reflexivity|].
  pose proof (Z.mod_pos_bound i 10 ltac:(lia)) as Hm.
  destruct (digit_char_spec (i mod 10) Hm) as [Hd _].
  destruct (i <? 10).
  - cbn [skip_digits]. now rewrite Hd.
  - rewrite IH. cbn [skip_digits]. now rewrite Hd.
Qed.

Lemma parse_zeros (k : nat) (s : string) :
  parse_decimal 0 (zeros k ++ s) = parse_decimal 0 s.
Proof. induction k as [|k IH]; cbn; [reflexivity|exact IH]. Qed.

Lemma skip_zeros (k : nat) (s : string) :
  skip_digits (zeros k ++ s) = skip_digits s.
Proof. induction k as [|k IH]; cbn; [reflexivity|exact IH]. Qed.

Lemma int_to_string_parse (i digits : Z) (rest : string) :
  0 <= i < 10 ^ 10 ->
  parse_decimal 0 (int_to_string i digits ++ rest) = parse_decimal i rest.
Proof.
  intros Hi. unfold int_to_string, lexical_cast.
  destruct (digits =? invalid_unsigned_int);
    [|destruct (size _ <? digits)];
    rewrite ?append_assoc, ?parse_zeros, decimal_digits_append;
    now apply parse_decimal_digits.
Qed.

Lemma int_to_string_skip (i digits : Z) (rest : string) :
  skip_digits (int_to_string i digits ++ rest) = skip_digits rest.
Proof.
  unfold int_to_string, lexical_cast.
  destruct (digits =? invalid_unsigned_int);
    [|destruct (size _ <? digits)];
    rewrite ?append_assoc, ?skip_zeros, decimal_digits_append;
    apply skip_decimal_digits.
Qed.

Lemma is_digit_dot : is_digit "." = false.
Proof. reflexivity. Qed.

Lemma is_uint_decimal (i : Z) : is_uint i -> 0 <= i < 10 ^ 10.
Proof. unfold is_uint, uint_modulus. lia. Qed.

Lemma piece_name_shape (i r : Z) :
  piece_name i r
  = "solution-"
      ++ (int_to_string i invalid_unsigned_int
            ++ String "." (int_to_string r 4 ++ ".vtu")).
Proof. unfold piece_name, step_stem. now rewrite !append_assoc. Qed.

Lemma manifest_name_shape (i : Z) :
  step_stem i ++ ".pvtu"
  = "solution-" ++ (int_to_string i invalid_unsigned_int ++ ".pvtu").
Proof. unfold step_stem. now rewrite !append_assoc. Qed.

Lemma piece_name_decode (j q : Z) :
  is_uint j -> is_uint q -> decode_piece_name (piece_name j q) = (j, q).
Proof.
  intros Hj Hq. unfold decode_piece_name. rewrite piece_name_shape.
  cbn [append drop].
  rewrite int_to_string_skip,
    (int_to_string_parse j) by now apply is_uint_decimal.
  cbn [parse_decimal skip_digits]. rewrite is_digit_dot. cbn [drop].
  rewrite int_to_string_parse by now apply is_uint_decimal.
  reflexivity.
Qed.

Lemma digit_char_nonzero (d : Z) : 0 < d < 10 -> digit_char d <> "0"%char.
Proof.
  intros H.
  assert (E : d = 1 \/ d = 2 \/ d = 3 \/ d = 4 \/ d = 5 \/ d = 6
              \/ d = 7 \/ d = 8 \/ d = 9) by lia.
  repeat (destruct E as [->|E]; [discriminate|]). subst d. discriminate.
Qed.

Lemma all_digits_decimal (fuel : nat) (i : Z) (acc : string) :
  all_digits acc = true -> all_digits (decimal_digits fuel i acc) = true.
Proof.
  revert i acc. induction fuel as [|fuel IH]; intros i acc Hacc;
    cbn [decimal_digits]; [exact Hacc|].
  pose proof (Z.mod_pos_bound i 10 ltac:(lia)) as Hm.
  destruct (digit_char_spec (i mod 10) Hm) as [Hd _].
  assert (H : all_digits (String (digit_char (i mod 10)) acc) = true).
  { cbn [all_digits]. now rewrite Hd, Hacc. }
  destruct (i <? 10); [exact H|]. apply IH, H.
Qed.

Lemma all_digits_zeros (k : nat) (s : string) :
  all_digits (zeros k ++ s) = all_digits s.
Proof. induction k as [|k IH]; cbn; [reflexivity|exact IH]. Qed.

Lemma int_to_string_all_digits (i digits : Z) :
  all_digits (int_to_string i digits) = true.
Proof.
  unfold int_to_string, lexical_cast.
  destruct (digits =? invalid_unsigned_int);
    [|destruct (size _ <? digits)];
    rewrite ?all_digits_zeros; now apply all_digits_decimal.
Qed.

Lemma decimal_digits_leading (fuel : nat) (i : Z) (acc : string) :
  0 < i < 10 ^ Z.of_nat fuel ->
  exists c rest,
    decimal_digits fuel i acc = String c rest /\ c <> "0"%char.
Proof.
  revert i acc. induction fuel as [|fuel IH]; intros i acc Hi.
  - cbn in Hi. lia.
  - cbn [decimal_digits].
    rewrite Nat2Z.inj_succ, Z.pow_succ_r in Hi by lia.
    destruct (Z.ltb_spec i 10) as [Hlt|Hge].
    + eexists _, _. split; [reflexivity|].
      apply digit_char_nonzero. rewrite Z.mod_small; lia.
    + apply IH. split.
      * apply Z.div_str_pos. lia.
      * apply Z.div_lt_upper_bound; lia.
Qed.

Lemma int_to_string_plain (i : Z) :
  0 <= i < 10 ^ 10 ->
  parse_decimal 0 (int_to_string i invalid_unsigned_int) = i
  /\ (i = 0 -> int_to_string i invalid_unsigned_int = "0")
  /\ (0 < i ->
      exists c rest,
        int_to_string i invalid_unsigned_int = String c rest
        /\ c <> "0"%char).
Proof.
  intros Hi. split; [|split].
  - unfold int_to_string, lexical_cast. rewrite Z.eqb_refl.
    now rewrite parse_decimal_digits.
  - intros ->. reflexivity.
  - intros Hpos. unfold int_to_string, lexical_cast. rewrite Z.eqb_refl.
    apply decimal_digits_leading. change (Z.of_nat 10) with 10. lia.
Qed.

Lemma int_to_string_value (i digits : Z) :
  0 <= i < 10 ^ 10 -> parse_decimal 0 (int_to_string i digits) = i.
Proof.
  intros Hi.
  assert (E : int_to_string i digits
              = int_to_string i digits ++ EmptyString).
  { generalize (int_to_string i digits). intros s.
    induction s as [|c s IH]; cbn [append]; [reflexivity|now rewrite <- IH]. }
  rewrite E, int_to_string_parse by assumption. reflexivity.
Qed.

Lemma append_longer (a b : string) : 0 < size b -> a ++ b <> a.
Proof.
  intros Hb E. apply (f_equal size) in E. rewrite size_append in E. lia.
Qed.

(** * Properties of the driver *)

Section Claims.

Context {A : Arith} {B : Backend A}.

(** C1, as the code has it.  The constructor always cuts
    [convection_field] into exactly two clauses: the text before the first
    comma and the text after it, and twice the whole string when there is no
    comma.  The cut itself never throws; for the supported dimension the
    constructor completes exactly when the expression parser accepts the two
    clauses and the forcing. *)
Theorem convection_field_split (P r : Z) (params : Parameters) :
  size (convection_field params) < npos ->
  exists first second,
    split_convection_field (convection_field params)
    = ([], Ok [first; second])
    /\ (has_comma (convection_field params) = false ->
        first = convection_field params /\ second = convection_field params)
    /\ (forall a b,
          has_comma a = false ->
          convection_field params = a ++ String "," b ->
          first = a /\ second = b)
    /\ completed (CDRProblem_ctor 2 P r params)
       = expressions_parse first second params.
Proof.
  intros Hsz. destruct (split_total _ Hsz) as (first & second & Hs).
  exists first, second. split; [exact Hs|]. split; [|split].
  - intros Hc. rewrite (split_no_comma _ Hsz Hc) in Hs.
    injection Hs as <- <-. split; reflexivity.
  - intros a b Ha E. rewrite E in Hs, Hsz.
    rewrite (split_at_first_comma _ _ Hsz Ha) in Hs.
    injection Hs as <- <-. split; reflexivity.
  - now apply ctor_dim2.
Qed.

(** C9.  For every dimension other than 2 the constructor aborts at its
    first statement with [ExcNotImplemented]; for dimension 2 that check
    passes and construction goes on: it completes whenever the expression
    parser accepts the clauses it is given. *)
Theorem dimension_check (dim P r : Z) (params : Parameters) :
  (dim <> 2 ->
   CDRProblem_ctor dim P r params = ([], Abort ExcNotImplemented))
  /\ (dim = 2 ->
      outcome (CDRProblem_ctor dim P r params) <> Abort ExcNotImplemented
      /\ forall first second,
           split_convection_field (convection_field params)
           = ([], Ok [first; second]) ->
           expressions_parse first second params = true ->
           completed (CDRProblem_ctor dim P r params) = true).
Proof.
  split.
  - apply ctor_wrong_dimension.
  - intros ->. split; [apply ctor_dim2_implemented|].
    intros first second Hs Hp. now rewrite (ctor_dim2 _ _ _ _ _ Hs).
Qed.

(** C2, as the code has it.  After the loop over the active cells of the
    coarse shell mesh, the manifold is attached under id 0, every active
    cell carries manifold id 0 and so does every face of every active cell,
    whether the face lies on the boundary or in the interior; the loop
    changes nothing else about a face. *)
Theorem manifold_ids_on_all_faces (p : CDRProblem) :
  let coarse := hyper_shell (inner_radius (parameters p))
                            (outer_radius (parameters p)) in
  let mesh := tagged_coarse_mesh p in
  In manifold_id (manifolds mesh)
  /\ (forall c, In c (tria_cells mesh) -> cell_active c = true ->
                cell_manifold_id c = manifold_id)
  /\ (forall i f, face_of_active_cell mesh i ->
                  nth_error (tria_faces mesh) i = Some f ->
                  face_manifold_id f = manifold_id
                  /\ exists f0, nth_error (snd coarse) i = Some f0
                                /\ face_at_boundary f = face_at_boundary f0).
Proof.
  cbv zeta. split; [|split].
  - unfold tagged_coarse_mesh, tag_manifold_ids.
    destruct (tag_active_cells _ _). cbn. now left.
  - intros c Hc Ha. rewrite tagged_coarse_mesh_cells in Hc.
    apply in_map_iff in Hc. destruct Hc as (c0 & <- & _).
    unfold tagged_cell in *. destruct (cell_active c0) eqn:E.
    + reflexivity.
    + congruence.
  - intros i f Hi Hf. rewrite tagged_coarse_mesh_faces in Hf.
    assert (Ht : touched (fst (hyper_shell (inner_radius (parameters p))
                                           (outer_radius (parameters p)))) i
                 = true).
    { rewrite <- touched_tagged, <- tagged_coarse_mesh_cells.
      now apply touched_spec. }
    rewrite Ht in Hf.
    destruct (nth_error (snd (hyper_shell _ _)) i) as [f0|]; [|discriminate].
    cbn in Hf. injection Hf as <-. split; [reflexivity|].
    exists f0. split; reflexivity.
Qed.

End Claims.

Section LoopClaims.

Context {A : Arith} {B : Backend A}.

(** C3.  In a run that completes, with [n] time steps and a positive save
    interval [k], a checkpoint is written in pass [i] exactly when
    [i mod k = 0], for [i] from [0] to [n - 1]: the saved steps are
    [0, k, 2k, ...], and there are [ceil(n / k)] of them. *)
Theorem checkpoint_schedule (dim P r : Z) (params : Parameters) :
  let n := n_time_steps params in
  let k := save_interval params in
  let saved := checkpoints (trace (main dim P r params)) in
  is_uint n -> 0 < k ->
  completed (main dim P r params) = true ->
  saved = filter (fun i => i mod k =? 0) (uint_range n)
  /\ saved = map (fun c => c * k) (uint_range (ceil_div n k))
  /\ Z.of_nat (List.length saved) = ceil_div n k
  /\ (ceil_div n k - 1) * k < n <= ceil_div n k * k.
Proof.
  cbv zeta. intros Hn Hk Hdone.
  assert (Hs : checkpoints (trace (main dim P r params))
               = filter (fun i => i mod save_interval params =? 0)
                        (uint_range (n_time_steps params))).
  { destruct (main_decompose dim P r params)
      as [(e & _ & E)|(p & M0 & q & _ & Htr & Ho & _ & _ & Hq & _)].
    - rewrite E in Hdone. discriminate.
    - rewrite Htr. cbn [checkpoints flat_map app].
      fold (checkpoints (trace (time_iterate q))).
      unfold completed in Hdone. rewrite Ho in Hdone.
      unfold time_iterate in *.
      pose proof (time_loop_iterations
                    (S (Z.to_nat (n_time_steps (parameters q)))) 0
                    (start_time (parameters q))
                    (vector_reinit (locally_owned_dofs q)) q) as H.
      cbv zeta in H. rewrite Hq in *.
      destruct H as (_ & _ & H); [assumption|unfold is_uint in Hn; lia|lia|].
      rewrite uint_range_from. apply H. exact Hdone. }
  pose proof (ceil_div_spec (n_time_steps params) (save_interval params) Hk)
    as Hc.
  split; [exact Hs|]. rewrite Hs, multiples_below by (unfold is_uint in Hn; lia).
  split; [reflexivity|]. split; [|exact Hc].
  rewrite length_map, uint_range_length, Z2Nat.id; [reflexivity|].
  apply ceil_div_nonneg; unfold is_uint in Hn; lia.
Qed.

(** C4.  [run] assembles the system matrix exactly once, before the time
    loop, from the DoFs, quadrature, convection field, parameters, step size
    and constraints of the set-up; nothing in the loop assembles or assigns
    it.  Every call of the solver, in every pass, is handed that matrix,
    compressed, and the preconditioner built from it: the log shows it, the
    run ends exactly as the steps that solve with it end ([pass_solve],
    spelled out in the fifth part), and a run that completes still holds
    it. *)
Theorem matrix_assembled_once (p : CDRProblem) :
  let n := n_time_steps (parameters p) in
  let M0 :=
    create_system_matrix (run_dof_handler p) (quad p)
      (convection_function p) (parameters p) (time_step p)
      (run_constraints p)
      (matrix_reinit (run_owned_dofs p) (run_sparsity p)) in
  (exists loop_trace,
      trace (run p)
      = EvCreateSystemMatrix (time_step p) M0
          :: EvPreconditionerInitialize (matrix_compress M0) :: loop_trace
      /\ matrix_assemblies loop_trace = [])
  /\ matrix_assemblies (trace (run p)) = [M0]
  /\ (forall j ms tol M rhs,
        In (EvSolve j ms tol M rhs) (trace (run p)) ->
        M = matrix_compress M0)
  /\ (forall p', outcome (run p) = Ok p' ->
                 system_matrix p' = matrix_compress M0
                 /\ preconditioner p'
                    = preconditioner_initialize (matrix_compress M0))
  /\ (forall s,
        pass_solve p s
        = gmres_solve (n_dofs (run_dof_handler p))
                      (dmul d_1em6 (l2_norm (pass_rhs p s)))
                      (matrix_compress M0) (ls_distributed s) (pass_rhs p s)
                      (preconditioner_initialize (matrix_compress M0)))
  /\ (is_uint n -> save_interval (parameters p) <> 0 ->
      match state_after (Z.to_nat n) p with
      | Some s =>
          exists p', outcome (run p) = Ok p'
                     /\ holds_state p s (ls_distributed s) p'
      | None => outcome (run p) = Abort NoConvergence
      end).
Proof.
  cbv zeta. fold (assembled_matrix p). fold (run_matrix p).
  fold (run_preconditioner p).
  pose proof (prepared_holds p) as Hq. unfold holds_state in Hq.
  split; [|split; [|split; [|split; [|split]]]].
  - exists (trace (time_iterate (prepared p))). rewrite run_prepared.
    split; [reflexivity|]. apply time_loop_matrix_assemblies.
  - rewrite run_prepared. cbn [trace fst matrix_assemblies flat_map app].
    fold (matrix_assemblies (trace (time_iterate (prepared p)))).
    unfold time_iterate. now rewrite time_loop_matrix_assemblies.
  - rewrite run_prepared. cbn [trace fst].
    intros j ms tol M rhs [H|[H|H]]; try discriminate.
    apply time_loop_solves in H. destruct H as (_ & _ & -> & _). tauto.
  - rewrite run_prepared. cbn [outcome snd]. intros p' H.
    apply time_loop_frame in H. unfold same_setup in H.
    destruct H as (_ & _ & _ & _ & _ & _ & -> & ->). tauto.
  - reflexivity.
  - apply run_refines.
Qed.

(** C5.  Every pass calls the solver once.  The call of pass [j] is
    [gmres_solve] with the number of DoFs of the DoF handler as the maximal
    number of iterations and [1e-6 * l2_norm(rhs)] as the tolerance, where
    [rhs] is the right-hand side assembled in that pass, compressed; the log
    shows these values, one step of the reference is exactly that call
    (fourth part), and the run ends as the reference ends: it completes
    with the solution these calls give, or stops with [NoConvergence] when
    one of them fails. *)
Theorem solver_control (p : CDRProblem) :
  let n := n_time_steps (parameters p) in
  solve_steps (trace (run p)) = iterations (trace (run p))
  /\ (forall j ms tol M rhs,
        In (EvSolve j ms tol M rhs) (trace (run p)) ->
        ms = n_dofs {| dh_triangulation := refined_mesh p;
                       dh_fe_degree := fe p |}
        /\ tol = dmul d_1em6 (l2_norm rhs)
        /\ exists t u b,
             In (EvCreateSystemRhs j t u b) (trace (run p))
             /\ rhs = vector_compress b)
  /\ (is_uint n ->
      forall j ms tol M rhs,
        In (EvSolve j ms tol M rhs) (trace (run p)) ->
        0 <= j < n
        /\ exists s,
             state_after (Z.to_nat j) p = Some s
             /\ In (EvCreateSystemRhs j
                      (dadd (ls_forcing_time s) (time_step p))
                      (ls_solution s) (pass_assembled p s))
                   (trace (run p))
             /\ rhs = vector_compress (pass_assembled p s)
             /\ ms = n_dofs (run_dof_handler p)
             /\ tol = dmul d_1em6 (l2_norm rhs)
             /\ M = run_matrix p)
  /\ (forall s,
        next_state p s
        = match gmres_solve (n_dofs (run_dof_handler p))
                  (dmul d_1em6
                        (l2_norm (vector_compress (pass_assembled p s))))
                  (run_matrix p) (ls_distributed s)
                  (vector_compress (pass_assembled p s))
                  (run_preconditioner p) with
          | None => None
          | Some solved =>
              Some {| ls_forcing_time :=
                        dadd (ls_forcing_time s) (time_step p);
                      ls_solution :=
                        ghost_assign (ls_solution s)
                          (constraints_distribute (run_constraints p)
                                                  solved);
                      ls_rhs := vector_compress (pass_assembled p s);
                      ls_distributed :=
                        constraints_distribute (run_constraints p) solved |}
          end)
  /\ (is_uint n -> save_interval (parameters p) <> 0 ->
      match state_after (Z.to_nat n) p with
      | Some s =>
          exists p', outcome (run p) = Ok p'
                     /\ holds_state p s (ls_distributed s) p'
      | None => outcome (run p) = Abort NoConvergence
      end).
Proof.
  cbv zeta. split; [|split; [|split; [|split]]].
  - rewrite run_prepared. cbn [trace fst solve_steps iterations flat_map app].
    apply time_loop_solve_steps.
  - intros j ms tol M rhs H. rewrite run_prepared in H |- *.
    cbn [trace fst] in H |- *. destruct H as [H|[H|H]]; try discriminate.
    apply time_loop_solves in H.
    destruct H as (Hms & Htol & _ & t & u & b & Hin & Hrhs).
    pose proof (prepared_holds p) as Hq. unfold holds_state in Hq.
    split; [rewrite Hms; tauto|]. split; [exact Htol|].
    exists t, u, b. split; [right; right; exact Hin|exact Hrhs].
  - intros Hn j ms tol M rhs H.
    pose proof (run_log p _ Hn H) as Hlog. cbv beta iota in Hlog.
    destruct Hlog as (Hj & s & Hs & Hms & Htol & HM & Hrhs).
    split; [exact Hj|]. exists s. split; [exact Hs|].
    split; [|subst rhs; tauto].
    assert (H' := H). rewrite run_prepared in H'. cbn [trace fst] in H'.
    destruct H' as [H'|[H'|H']]; try discriminate.
    apply time_loop_solves in H'.
    destruct H' as (_ & _ & _ & t & u & b & Hin & _).
    assert (Hin' : In (EvCreateSystemRhs j t u b) (trace (run p))).
    { rewrite run_prepared. right. right. exact Hin. }
    pose proof (run_log p _ Hn Hin') as Hlog. cbv beta iota in Hlog.
    destruct Hlog as (_ & s' & Hs' & -> & -> & ->).
    rewrite Hs in Hs'. injection Hs' as <-. exact Hin'.
  - reflexivity.
  - apply run_refines.
Qed.

(** C6.  The step size is [(stop_time - start_time) / n_time_steps] from
    construction on; every pass advances time by exactly it; the loop ends
    by itself, its passes are numbered [0, 1, 2, ...] without gap or
    repetition, and a run that completes has made exactly [n_time_steps]
    passes and still has the same step size. *)
Theorem fixed_step_loop (dim P r : Z) (params : Parameters) :
  let n := n_time_steps params in
  let dt := ddiv (dsub (stop_time params) (start_time params))
                 (d_of_uint n) in
  let program := main dim P r params in
  is_uint n ->
  (forall p, outcome (CDRProblem_ctor dim P r params) = Ok p ->
             time_step p = dt)
  /\ Forall (eq dt) (time_advances (trace program))
  /\ outcome program <> OutOfFuel
  /\ (exists m, 0 <= m <= n /\ iterations (trace program) = uint_range m)
  /\ (completed program = true ->
      iterations (trace program) = uint_range n
      /\ List.length (iterations (trace program)) = Z.to_nat n
      /\ forall p', outcome program = Ok p' -> time_step p' = dt).
Proof.
  cbv zeta. intros Hn. split.
  { intros p Hp. apply ctor_fields in Hp. tauto. }
  destruct (main_decompose dim P r params)
    as [(e & _ & E)|(p & M0 & q & _ & Htr & Ho & _ & _ & Hq & Hdt & _)].
  - rewrite E. cbn. split; [constructor|]. split; [discriminate|].
    split; [|discriminate]. exists 0. split; [unfold is_uint in Hn; lia|].
    reflexivity.
  - unfold completed. rewrite Htr, Ho. unfold time_iterate.
    cbn [time_advances iterations flat_map app].
    pose proof (time_loop_iterations
                  (S (Z.to_nat (n_time_steps (parameters q)))) 0
                  (start_time (parameters q))
                  (vector_reinit (locally_owned_dofs q)) q) as H.
    cbv zeta in H. unfold completed in H. rewrite Hq in *.
    destruct H as (Hfuel & (m & Hm & Hit & Hall) & _);
      [assumption|unfold is_uint in Hn; lia|lia|].
    split.
    { rewrite <- Hdt, <- Hq. apply time_loop_time_advances. }
    split; [exact Hfuel|]. split.
    { exists m. split; [exact Hm|]. rewrite uint_range_from. exact Hit. }
    intros Hdone. specialize (Hall Hdone). subst m.
    unfold iterations in Hit |- *. rewrite Hit, <- uint_range_from.
    split; [reflexivity|]. split; [apply uint_range_length|].
    intros p' Hp'. apply time_loop_frame in Hp'.
    destruct Hp' as (_ & H & _). congruence.
Qed.

(** C8.  At every saved step [i], the process of rank [r] writes exactly
    one file of its own, named [solution-<i>.<r>.vtu], and only rank 0
    writes, after it, the manifest [solution-<i>.pvtu], which lists the
    names of the files of all [P] processes in rank order; no other file is
    written.  [<i>] is the step index in decimal without leading zeros,
    [<r>] the rank in decimal filled with zeros to four digits (ranks below
    10000 take exactly four), so that step and rank can be read back from
    the name.  The extensions are part of the names: no file is named
    [solution-<i>.<r>] or [solution-<i>]. *)
Theorem checkpoint_files (dim P r : Z) (params : Parameters) :
  files_written (trace (main dim P r params))
  = flat_map
      (fun i =>
         PerProcessFile i
           ("solution-" ++ int_to_string i invalid_unsigned_int ++ "."
              ++ int_to_string r 4 ++ ".vtu")
         :: (if r =? 0
             then [ManifestFile i
                     ("solution-" ++ int_to_string i invalid_unsigned_int
                        ++ ".pvtu")
                     (map (fun rank =>
                             "solution-"
                               ++ int_to_string i invalid_unsigned_int ++ "."
                               ++ int_to_string rank 4 ++ ".vtu")
                          (uint_range P))]
             else []))
      (checkpoints (trace (main dim P r params)))
  /\ (forall i rank,
        is_uint i -> 0 <= rank < 10000 ->
        let step := int_to_string i invalid_unsigned_int in
        let padded := int_to_string rank 4 in
        (size padded = 4
         /\ all_digits padded = true
         /\ parse_decimal 0 padded = rank)
        /\ (all_digits step = true
            /\ parse_decimal 0 step = i
            /\ (i = 0 -> step = "0")
            /\ (0 < i -> exists c rest,
                           step = String c rest /\ c <> "0"%char))
        /\ decode_piece_name
             ("solution-" ++ step ++ "." ++ padded ++ ".vtu")
           = (i, rank)
        /\ "solution-" ++ step ++ "." ++ padded ++ ".vtu"
           <> "solution-" ++ step ++ "." ++ padded
        /\ "solution-" ++ step ++ ".pvtu" <> "solution-" ++ step).
Proof.
  split.
  { destruct (main_decompose dim P r params)
      as [(e & _ & E)
         |(p & M0 & q & _ & Htr & _ & _ & _ & _ & _ & HP & Hr & Hs & _)].
    - rewrite E. reflexivity.
    - rewrite Htr. cbn [files_written checkpoints flat_map app].
      unfold time_iterate.
      pose proof (time_loop_files
                    (S (Z.to_nat (n_time_steps (parameters q)))) 0
                    (start_time (parameters q))
                    (vector_reinit (locally_owned_dofs q)) q) as H.
      rewrite HP, Hr in H. unfold files_written, checkpoints in H.
      rewrite H by exact Hs. apply flat_map_ext. intros i.
      unfold step_files, piece_name, step_stem.
      rewrite !append_assoc. reflexivity. }
  intros i rank Hi Hrank. cbv zeta.
  assert (Hi10 : 0 <= i < 10 ^ 10) by now apply is_uint_decimal.
  assert (Hr10 : 0 <= rank < 10 ^ 10) by lia.
  destruct (int_to_string_plain i Hi10) as (Hv & Hz & Hl).
  split; [|split; [|split; [|split]]].
  - split; [now apply int_to_string_four|].
    split; [apply int_to_string_all_digits|now apply int_to_string_value].
  - split; [apply int_to_string_all_digits|]. split; [exact Hv|].
    split; [exact Hz|exact Hl].
  - assert (Hur : is_uint rank) by (unfold is_uint, uint_modulus; lia).
    pose proof (piece_name_decode i rank Hi Hur) as Hd.
    unfold piece_name, step_stem in Hd. rewrite !append_assoc in Hd.
    exact Hd.
  - rewrite <- !append_assoc. apply append_longer. reflexivity.
  - rewrite <- !append_assoc. apply append_longer. reflexivity.
Qed.

(** C10.  [setup_geometry] leaves the ghosted solution as the zero vector
    over the locally relevant DoFs of the refined mesh: one entry per such
    DoF, each zero.  Nothing assigns it before the loop: whenever the
    problem is constructed and there is a step to make, the first
    right-hand-side assembly (pass 0) takes place and is
    [create_system_rhs] called with exactly that vector as the previous
    solution; the log shows the call's argument and result, and the run
    ends as the steps that start from that zero vector end. *)
Theorem initial_solution_zero (dim P r : Z) (params : Parameters) :
  let n := n_time_steps params in
  let program := main dim P r params in
  (forall p q,
      outcome (setup_geometry p) = Ok q ->
      locally_relevant_dofs q
      = extract_locally_relevant_dofs
          {| dh_triangulation := refined_mesh p; dh_fe_degree := fe p |}
      /\ locally_relevant_solution q
         = map (fun i => (i, d_zero)) (locally_relevant_dofs q)
      /\ map fst (locally_relevant_solution q) = locally_relevant_dofs q
      /\ identically_zero (locally_relevant_solution q))
  /\ (completed (CDRProblem_ctor dim P r params) = false ->
      trace program = [])
  /\ (forall p,
        outcome (CDRProblem_ctor dim P r params) = Ok p ->
        let zero :=
          map (fun i => (i, d_zero))
              (extract_locally_relevant_dofs (run_dof_handler p)) in
        let first_rhs :=
          create_system_rhs (run_dof_handler p) (quad p)
            (convection_function p)
            (set_time (dadd (start_time params) (time_step p))
                      (forcing_function p))
            params zero (run_constraints p)
            (map (fun i => (i, d_zero))
                 (dh_locally_owned_dofs (run_dof_handler p))) in
        (forall i t u,
            nth_error (rhs_assemblies (trace program)) 0 = Some (i, t, u) ->
            i = 0 /\ u = zero)
        /\ (is_uint n ->
            forall t u b,
              In (EvCreateSystemRhs 0 t u b) (trace program) ->
              u = zero /\ b = first_rhs)
        /\ (0 < n ->
            In (EvCreateSystemRhs 0
                  (dadd (start_time params) (time_step p)) zero first_rhs)
               (trace program)
            /\ exists t,
                 nth_error (rhs_assemblies (trace program)) 0
                 = Some (0, t, zero))
        /\ ls_solution (initial_state p) = zero
        /\ pass_assembled p (initial_state p) = first_rhs
        /\ (is_uint n -> save_interval params <> 0 ->
            match state_after (Z.to_nat n) p with
            | Some s =>
                exists p', outcome program = Ok p'
                           /\ holds_state p s (ls_distributed s) p'
            | None => outcome program = Abort NoConvergence
            end)).
Proof.
  cbv zeta. split; [|split].
  { intros p q H. unfold setup_geometry in H. cbn -[refined_mesh] in H.
    injection H as <-. cbn -[refined_mesh].
    fold (zero_vector
            (extract_locally_relevant_dofs
               {| dh_triangulation := refined_mesh p;
                  dh_fe_degree := fe p |})).
    split; [reflexivity|]. split; [reflexivity|].
    split; [apply zero_vector_indices|apply zero_vector_zero]. }
  { intros Hc. rewrite main_unfold. unfold completed in Hc.
    destruct (outcome (CDRProblem_ctor dim P r params)); [discriminate| |];
      reflexivity. }
  intros p Hp. rewrite (main_run _ _ _ _ _ Hp).
  destruct (ctor_fields _ _ _ _ _ Hp) as (Hpar & _ & _ & _ & _ & Hft).
  fold (run_relevant_dofs p). fold (run_owned_dofs p).
  fold (zero_vector (run_relevant_dofs p)).
  fold (zero_vector (run_owned_dofs p)).
  assert (Hfirst : pass_assembled p (initial_state p)
                   = create_system_rhs (run_dof_handler p) (quad p)
                       (convection_function p)
                       (set_time (dadd (start_time params) (time_step p))
                                 (forcing_function p))
                       params (zero_vector (run_relevant_dofs p))
                       (run_constraints p)
                       (zero_vector (run_owned_dofs p))).
  { unfold pass_assembled, initial_state. cbn [ls_forcing_time ls_solution
      ls_rhs]. rewrite zero_vector_set_zero, Hft, Hpar. reflexivity. }
  assert (Hnth : forall i t u,
             nth_error (rhs_assemblies (trace (run p))) 0 = Some (i, t, u) ->
             i = 0 /\ u = zero_vector (run_relevant_dofs p)).
  { rewrite run_prepared. cbn [trace fst rhs_assemblies flat_map app].
    unfold time_iterate.
    fold (rhs_assemblies
            (trace (time_loop
                      (S (Z.to_nat (n_time_steps (parameters (prepared p)))))
                      0 (start_time (parameters (prepared p)))
                      (vector_reinit (locally_owned_dofs (prepared p)))
                      (prepared p)))).
    rewrite time_loop_first_assembly. intros i t u.
    destruct (0 <? n_time_steps (parameters (prepared p))); [|discriminate].
    intros [= <- _ <-]. split; [reflexivity|].
    pose proof (prepared_holds p) as Hq. unfold holds_state in Hq.
    unfold initial_state in Hq. cbn [ls_solution] in Hq. tauto. }
  split; [exact Hnth|]. split; [|split; [|split; [|split]]].
  - intros Hn t u b Hin. rewrite <- Hpar in Hn.
    pose proof (run_log p _ Hn Hin) as Hlog. cbv beta iota in Hlog.
    destruct Hlog as (_ & s & Hs & _ & -> & ->).
    unfold state_after in Hs. cbn [Z.to_nat state_from] in Hs.
    injection Hs as <-. split; [reflexivity|exact Hfirst].
  - intros Hn. rewrite <- Hpar in Hn.
    pose proof (run_first_assembly p Hn) as Hin.
    rewrite Hfirst, Hft in Hin. split; [exact Hin|].
    rewrite run_prepared. cbn [trace fst rhs_assemblies flat_map app].
    unfold time_iterate.
    fold (rhs_assemblies
            (trace (time_loop
                      (S (Z.to_nat (n_time_steps (parameters (prepared p)))))
                      0 (start_time (parameters (prepared p)))
                      (vector_reinit (locally_owned_dofs (prepared p)))
                      (prepared p)))).
    rewrite time_loop_first_assembly, prepared_parameters.
    apply Z.ltb_lt in Hn. rewrite Hn.
    pose proof (prepared_holds p) as Hq. unfold holds_state in Hq.
    unfold initial_state in Hq. cbn [ls_solution] in Hq.
    destruct Hq as (_ & _ & _ & _ & _ & _ & _ & _ & _ & _ & _ & _ & -> & _).
    eexists. reflexivity.
  - reflexivity.
  - exact Hfirst.
  - rewrite <- Hpar. apply run_refines.
Qed.

End LoopClaims.

Section ForcingTime.

Context {A : Arith} {B : Backend A}.

Lemma time_loop_assembly_steps (fuel : nat) (i : Z) (cur : double)
    (cds : Vector) (p : CDRProblem) :
  map (fun a => fst (fst a))
      (rhs_assemblies (trace (time_loop fuel i cur cds p)))
  = iterations (trace (time_loop fuel i cur cds p)).
Proof.
  apply (time_loop_trace_ind
           (fun _ tr => map (fun a => fst (fst a)) (rhs_assemblies tr)
                        = iterations tr)).
  - reflexivity.
  - intros q q' a b _ Ha Hb. unfold rhs_assemblies, iterations in *.
    now rewrite !flat_map_app, map_app, Ha, Hb.
  - intros. now rewrite body_rhs_assemblies, body_iterations.
Qed.

(** In any arithmetic: the [j]-th assembly of the program is that of pass
    [j], and the forcing function has been advanced [j + 1] times from
    [start_time] by then. *)
Lemma main_assemblies (dim P r : Z) (params : Parameters) (j : nat) (i : Z)
    (t : double) (u : Vector) :
  is_uint (n_time_steps params) ->
  nth_error (rhs_assemblies (trace (main dim P r params))) j
  = Some (i, t, u) ->
  i = Z.of_nat j
  /\ i < n_time_steps params
  /\ t = advanced (S j) (start_time params)
           (ddiv (dsub (stop_time params) (start_time params))
                 (d_of_uint (n_time_steps params))).
Proof.
  intros Hn.
  destruct (main_decompose dim P r params)
    as [(e & _ & E)
       |(p & M0 & q & _ & Htr & _ & _ & _ & Hq & Hdt & _ & _ & _ & Hft & _)].
  - rewrite E. destruct j; discriminate.
  - rewrite Htr. cbn [rhs_assemblies flat_map app]. unfold time_iterate.
    intros H. apply time_loop_assemblies in H; [|now rewrite Hq|lia].
    rewrite Hq, Hdt, Hft in H. destruct H as (Hi & Hlt & Ht & _).
    split; [lia|]. split; assumption.
Qed.

Lemma main_assembly_steps (dim P r : Z) (params : Parameters) :
  map (fun a => fst (fst a))
      (rhs_assemblies (trace (main dim P r params)))
  = iterations (trace (main dim P r params)).
Proof.
  destruct (main_decompose dim P r params)
    as [(e & _ & E)|(p & M0 & q & _ & Htr & _)].
  - rewrite E. reflexivity.
  - rewrite Htr. cbn [rhs_assemblies iterations flat_map app].
    apply time_loop_assembly_steps.
Qed.

End ForcingTime.

Section ForcingClaim.

Context {A : Arith} {B : Backend A}.

(** C7.  In any arithmetic, binary64 included: every pass makes exactly one
    right-hand-side assembly, the [j]-th assembly is that of pass [j], and
    the forcing function has been advanced before it, so that the function
    [create_system_rhs] is called with has the time that [j + 1] successive
    additions of [dt] to [start_time] give (each addition rounded as the
    arithmetic rounds); the log shows the call's arguments and result, and
    the run ends as the steps with these forcing times end, with the
    forcing function at the time [n] additions give. *)
Theorem forcing_time_advanced (dim P r : Z) (params : Parameters) :
  let n := n_time_steps params in
  let dt := ddiv (dsub (stop_time params) (start_time params))
                 (d_of_uint n) in
  let program := main dim P r params in
  let assemblies := rhs_assemblies (trace program) in
  is_uint n ->
  map (fun a => fst (fst a)) assemblies = iterations (trace program)
  /\ (forall j i t u,
        nth_error assemblies j = Some (i, t, u) ->
        i = Z.of_nat j
        /\ 0 <= i < n
        /\ t = advanced (S j) (start_time params) dt)
  /\ (forall p,
        outcome (CDRProblem_ctor dim P r params) = Ok p ->
        (forall i t u b,
            In (EvCreateSystemRhs i t u b) (trace program) ->
            0 <= i < n
            /\ t = advanced (S (Z.to_nat i)) (start_time params) dt
            /\ exists s,
                 state_after (Z.to_nat i) p = Some s
                 /\ ls_forcing_time s
                    = advanced (Z.to_nat i) (start_time params) dt
                 /\ u = ls_solution s
                 /\ b = create_system_rhs (run_dof_handler p) (quad p)
                          (convection_function p)
                          (set_time (dadd (ls_forcing_time s) dt)
                                    (forcing_function p))
                          params u (run_constraints p)
                          (map (fun e => (fst e, d_zero)) (ls_rhs s)))
        /\ (save_interval params <> 0 ->
            match state_after (Z.to_nat n) p with
            | Some s =>
                ls_forcing_time s
                = advanced (Z.to_nat n) (start_time params) dt
                /\ exists p',
                     outcome program = Ok p'
                     /\ forcing_function p'
                        = set_time (advanced (Z.to_nat n)
                                             (start_time params) dt)
                                   (forcing_function p)
                     /\ holds_state p s (ls_distributed s) p'
            | None => outcome program = Abort NoConvergence
            end)).
Proof.
  cbv zeta. intros Hn. split; [apply main_assembly_steps|]. split.
  { intros j i t u H. apply main_assemblies in H; [|exact Hn].
    destruct H as (Hi & Hlt & Ht). split; [exact Hi|].
    split; [lia|exact Ht]. }
  intros p Hp. rewrite (main_run _ _ _ _ _ Hp).
  destruct (ctor_fields _ _ _ _ _ Hp) as (Hpar & Hdt & _ & _ & _ & Hft).
  rewrite <- Hdt. subst params. split.
  - intros i t u b Hin.
    pose proof (run_log p _ Hn Hin) as Hlog. cbv beta iota in Hlog.
    destruct Hlog as (Hi & s & Hs & -> & -> & ->).
    pose proof (state_from_forcing_time p _ _ _ Hs) as Ht.
    cbn [initial_state ls_forcing_time] in Ht. rewrite Hft in Ht.
    split; [exact Hi|]. split.
    { rewrite Ht. reflexivity. }
    exists s. split; [exact Hs|]. split; [exact Ht|].
    split; reflexivity.
  - intros Hk.
    pose proof (run_refines p Hn Hk) as H.
    destruct (state_after (Z.to_nat (n_time_steps (parameters p))) p)
      as [s|] eqn:Hs; [|exact H].
    pose proof (state_from_forcing_time p _ _ _ Hs) as Ht.
    cbn [initial_state ls_forcing_time] in Ht. rewrite Hft in Ht.
    split; [exact Ht|]. destruct H as (p' & Ho & Hh). exists p'.
    split; [exact Ho|]. split; [|exact Hh].
    rewrite <- Ht. unfold holds_state in Hh. tauto.
Qed.

End ForcingClaim.

(** ** Exact arithmetic *)








(** * Further properties *)

(** ** The constructor *)

Section ConstructorExtras.

Context {A : Arith} {B : Backend A}.

(** The first clause never contains a comma, and when the field has a
    comma, joining the two clauses with a comma gives the field back: the
    cut loses nothing and everything after the first comma, later commas
    included, stays in the second clause. *)
Theorem split_rejoin (s : string) :
  size s < npos ->
  exists first second,
    split_convection_field s = ([], Ok [first; second])
    /\ has_comma first = false
    /\ (has_comma s = true -> s = first ++ String "," second).
Proof.
  intros Hsz. destruct (first_comma s) as [Hc|(a & b & Ha & E)].
  - exists s, s. split; [now apply split_no_comma|]. split; [exact Hc|].
    rewrite Hc. discriminate.
  - subst s. exists a, b.
    split; [now apply split_at_first_comma|]. split; [exact Ha|reflexivity].
Qed.

(** The constructor can fail in two ways only: with [ExcNotImplemented],
    exactly for a dimension other than 2, and with a parse error, exactly
    when the dimension is 2 and the parser rejects one of the two clauses or
    the forcing.  Cutting the field never throws [std::out_of_range], and
    the parser is never given a wrong number of expressions. *)
Theorem ctor_failure_modes (dim P r : Z) (params : Parameters)
    (e : Exception) :
  size (convection_field params) < npos ->
  outcome (CDRProblem_ctor dim P r params) = Abort e ->
  (dim <> 2 /\ e = ExcNotImplemented)
  \/ (dim = 2 /\ e = ExcParseError
      /\ exists first second,
           split_convection_field (convection_field params)
           = ([], Ok [first; second])
           /\ expressions_parse first second params = false).
Proof.
  intros Hsz. destruct (Z.eq_dec dim 2) as [->|Hd].
  - destruct (split_total _ Hsz) as (first & second & Hs).
    intros H. right. split; [reflexivity|].
    revert H. unfold CDRProblem_ctor, Assert, expressions_parse.
    rewrite Z.eqb_refl, bind_ret_l, Hs. unfold fp_initialize; cbn.
    destruct (parses "x,y" ["pi"%string] first) eqn:E1;
      destruct (parses "x,y" ["pi"%string] second) eqn:E2;
      destruct (parses "x,y,t" ["pi"%string] (forcing params)) eqn:E3;
      cbn; intros H; try discriminate; injection H as <-;
      (split; [reflexivity|]); exists first, second;
      (split; [reflexivity|]); unfold expressions_parse;
      rewrite ?E1, ?E2, ?E3; reflexivity.
  - rewrite (ctor_wrong_dimension _ _ _ _ Hd). cbn. intros [= <-].
    left. split; [exact Hd|reflexivity].
Qed.

End ConstructorExtras.

(** ** The mesh *)

Lemma tag_manifold_ids_eq (t : Triangulation) :
  tag_manifold_ids t
  = {| locally_owned_subdomain := locally_owned_subdomain t;
       manifolds := manifolds t;
       tria_faces := snd (tag_active_cells (tria_cells t) (tria_faces t));
       tria_cells := map tagged_cell (tria_cells t) |}.
Proof.
  unfold tag_manifold_ids.
  rewrite <- (tag_active_cells_cells (tria_cells t) (tria_faces t)).
  destruct (tag_active_cells _ _). reflexivity.
Qed.

Lemma tagged_cell_idempotent (c : Cell) :
  tagged_cell (tagged_cell c) = tagged_cell c.
Proof.
  unfold tagged_cell. destruct (cell_active c) eqn:E; cbn; rewrite ?E;
    reflexivity.
Qed.

(** The loop over the active cells changes manifold ids and nothing else:
    the owner, the attached manifolds, the numbers of cells and faces, which
    cells are active, which faces bound which cell and which faces lie on
    the boundary stay as they are; a face that bounds no active cell is left
    untouched, and so is a cell that is not active. *)
Theorem tagging_changes_manifold_ids_only (t : Triangulation) :
  let t' := tag_manifold_ids t in
  locally_owned_subdomain t' = locally_owned_subdomain t
  /\ manifolds t' = manifolds t
  /\ map cell_active (tria_cells t') = map cell_active (tria_cells t)
  /\ map cell_faces (tria_cells t') = map cell_faces (tria_cells t)
  /\ map face_at_boundary (tria_faces t')
     = map face_at_boundary (tria_faces t)
  /\ (forall j, touched (tria_cells t) j = false ->
                nth_error (tria_faces t') j = nth_error (tria_faces t) j)
  /\ (forall j c, nth_error (tria_cells t) j = Some c ->
                  cell_active c = false ->
                  nth_error (tria_cells t') j = Some c).
Proof.
  cbv zeta. rewrite tag_manifold_ids_eq. cbn.
  split; [reflexivity|]. split; [reflexivity|]. split; [|split; [|split]].
  - rewrite map_map. apply map_ext. intros c. unfold tagged_cell.
    destruct (cell_active c) eqn:E; [reflexivity|exact E].
  - rewrite map_map. apply map_ext. intros c. unfold tagged_cell.
    destruct (cell_active c); reflexivity.
  - apply nth_error_ext. intros j.
    rewrite !nth_error_map, tag_active_cells_faces.
    destruct (touched _ j); [|reflexivity].
    destruct (nth_error (tria_faces t) j); reflexivity.
  - split.
    + intros j H. now rewrite tag_active_cells_faces, H.
    + intros j c Hc Ha. rewrite nth_error_map, Hc. cbn.
      unfold tagged_cell. now rewrite Ha.
Qed.

(** Running the loop a second time changes nothing. *)
Theorem tagging_idempotent (t : Triangulation) :
  tag_manifold_ids (tag_manifold_ids t) = tag_manifold_ids t.
Proof.
  rewrite (tag_manifold_ids_eq (tag_manifold_ids t)).
  assert (Hc : tria_cells (tag_manifold_ids t)
               = map tagged_cell (tria_cells t))
    by (rewrite tag_manifold_ids_eq; reflexivity).
  assert (Hf : tria_faces (tag_manifold_ids t)
               = snd (tag_active_cells (tria_cells t) (tria_faces t)))
    by (rewrite tag_manifold_ids_eq; reflexivity).
  assert (Hs : locally_owned_subdomain (tag_manifold_ids t)
               = locally_owned_subdomain t)
    by (rewrite tag_manifold_ids_eq; reflexivity).
  assert (Hm : manifolds (tag_manifold_ids t) = manifolds t)
    by (rewrite tag_manifold_ids_eq; reflexivity).
  rewrite Hc, Hf, Hs, Hm, (tag_manifold_ids_eq t). f_equal.
  - apply nth_error_ext. intros j.
    rewrite !tag_active_cells_faces, touched_tagged.
    destruct (touched (tria_cells t) j); [|reflexivity].
    destruct (nth_error (tria_faces t) j); reflexivity.
  - rewrite map_map. apply map_ext, tagged_cell_idempotent.
Qed.

(** ** The time loop, pass by pass *)

Section PassExtras.

Context {A : Arith} {B : Backend A}.

(** The right-hand side a pass assembles. *)
Lemma body_rhs_event (i : Z) (cds : Vector) (p : CDRProblem) :
  exists b files,
    trace (time_step_body i cds p) = (pass_head i p b ++ files)%list
    /\ (completed (time_step_body i cds p) = false -> files = []).
Proof.
  unfold completed, pass_head. body_cases i p; do 2 eexists;
    (split; [reflexivity|]); try discriminate; reflexivity.
Qed.

Lemma body_abort (i : Z) (cds : Vector) (p : CDRProblem) (e : Exception) :
  outcome (time_step_body i cds p) = Abort e ->
  e = NoConvergence
  \/ (e = DivisionByZero /\ save_interval (parameters p) = 0).
Proof.
  body_cases i p; intros H; try discriminate; injection H as <-.
  - right. split; [reflexivity|]. now apply Z.eqb_eq.
  - now left.
Qed.

Lemma body_ok_operator (i : Z) (cds cds' : Vector) (p p' : CDRProblem) :
  outcome (time_step_body i cds p) = Ok (cds', p') ->
  same_operator p p'
  /\ exists b solved,
       In (EvCreateSystemRhs i
             (dadd (fp_time (forcing_function p)) (time_step p))
             (locally_relevant_solution p) b)
          (trace (time_step_body i cds p))
       /\ gmres_solve (n_dofs (dof_handler p))
            (dmul d_1em6 (l2_norm (vector_compress b)))
            (system_matrix p) cds (vector_compress b) (preconditioner p)
          = Some solved
       /\ cds' = constraints_distribute (constraints p) solved
       /\ locally_relevant_solution p'
          = ghost_assign (locally_relevant_solution p) cds'.
Proof.
  unfold time_step_body.
  destruct (gmres_solve _ _ _ _ _ _) as [solved|] eqn:G;
    [|cbn; discriminate].
  destruct (save_interval (parameters p) =? 0); [cbn; discriminate|].
  destruct (i mod save_interval (parameters p) =? 0);
    [unfold write_checkpoint; cbn [this_mpi_process];
     destruct (this_mpi_process p =? 0)|];
    cbn -[int_to_string step_stem piece_name uint_range append];
    intros H; injection H as <- <-;
    (split; [unfold same_operator, same_setup; cbn; auto 12|]);
    do 2 eexists; (split; [right; left; reflexivity|]);
    (split; [exact G|]); split; reflexivity.
Qed.


Lemma same_operator_refl (p : CDRProblem) : same_operator p p.
Proof. unfold same_operator. auto using same_setup_refl. Qed.



End PassExtras.

(** ** Whole runs *)

Section RunExtras.

Context {A : Arith} {B : Backend A}.

Lemma same_operator_trans (p q r : CDRProblem) :
  same_operator p q -> same_operator q r -> same_operator p r.
Proof.
  unfold same_operator. intros (S1 & C1 & Q1 & F1) (S2 & C2 & Q2 & F2).
  split; [eapply same_setup_trans; eassumption|].
  repeat split; congruence.
Qed.

(** With no time steps, [run] assembles the operator, sets up the
    preconditioner and is done: no pass, no solver call, no file; the
    solution it ends with is the zero vector over the locally relevant
    DoFs. *)
Theorem run_zero_steps (p : CDRProblem) :
  n_time_steps (parameters p) = 0 ->
  run p
  = ([EvCreateSystemMatrix (time_step p) (assembled_matrix p);
      EvPreconditionerInitialize (matrix_compress (assembled_matrix p))],
     Ok (prepared p))
  /\ system_matrix (prepared p) = matrix_compress (assembled_matrix p)
  /\ locally_relevant_solution (prepared p)
     = map (fun i => (i, d_zero))
           (extract_locally_relevant_dofs (run_dof_handler p)).
Proof.
  intros Hn. split.
  - rewrite run_prepared. unfold time_iterate. cbn [time_loop].
    rewrite prepared_parameters, Hn. reflexivity.
  - pose proof (prepared_holds p) as Hq. unfold holds_state in Hq.
    split; [tauto|].
    destruct Hq as (_ & _ & _ & _ & _ & _ & _ & _ & _ & _ & _ & _ & -> & _).
    reflexivity.
Qed.

Lemma time_loop_abort_cause (fuel : nat) (i : Z) (cur : double)
    (cds : Vector) (p : CDRProblem) (e : Exception) :
  outcome (time_loop fuel i cur cds p) = Abort e ->
  e = NoConvergence
  \/ (e = DivisionByZero /\ save_interval (parameters p) = 0).
Proof.
  revert i cur cds p. induction fuel as [|fuel IH]; intros i cur cds p;
    cbn [time_loop]; [discriminate|].
  destruct (i <? n_time_steps (parameters p)); [|discriminate].
  rewrite outcome_bind.
  destruct (outcome (time_step_body i cds p)) as [[cds' p']|e0|] eqn:E;
    [|intros [= <-]; now apply body_abort in E|discriminate].
  intros H. apply IH in H. cbn [fst snd] in H. apply body_ok in E.
  destruct E as ((Hp & _) & _). now rewrite Hp in H.
Qed.

(** A loop that does not end normally stopped in its last pass right after
    the solver call; the passes before it are all there, and that last pass
    wrote nothing. *)
Lemma time_loop_stopped (fuel : nat) (i : Z) (cur : double) (cds : Vector)
    (p : CDRProblem) :
  let N := n_time_steps (parameters p) in
  let k := save_interval (parameters p) in
  let loop := time_loop fuel i cur cds p in
  is_uint N -> 0 <= i <= N -> (Z.to_nat (N - i) < fuel)%nat ->
  completed loop = false ->
  exists m tr0 q b,
    i < m <= N
    /\ same_operator p q
    /\ trace loop = (tr0 ++ pass_head (m - 1) q b)%list
    /\ iterations (trace loop) = uint_from i m
    /\ checkpoints (trace loop)
       = filter (fun j => j mod k =? 0) (uint_from i (m - 1)).
Proof.
  cbv zeta. revert i cur cds p.
  induction fuel as [|fuel IH]; intros i cur cds p HN Hi Hf; [lia|].
  cbn [time_loop].
  destruct (Z.ltb_spec i (n_time_steps (parameters p))) as [Hlt|Hge];
    [|discriminate].
  rewrite completed_bind, trace_bind.
  unfold iterations, checkpoints. rewrite !flat_map_app.
  fold (iterations (trace (time_step_body i cds p))).
  fold (checkpoints (trace (time_step_body i cds p))).
  rewrite body_iterations, body_checkpoints.
  destruct (body_rhs_event i cds p) as (b & files & Htr & Hfiles).
  pose proof (body_never_out_of_fuel i cds p) as Hb.
  unfold completed in *.
  destruct (outcome (time_step_body i cds p)) as [[cds' p']|e|] eqn:E;
    [|clear IH|contradiction].
  - apply body_ok_operator in E. destruct E as (Hop & _).
    pose proof Hop as ((Hp & _) & _).
    rewrite (uint_wrap_succ i _ HN) by lia. cbn [fst snd].
    intros Hdone.
    specialize (IH (i + 1) (dadd cur (time_step p)) cds' p').
    rewrite Hp in IH.
    destruct IH as (m & tr0 & q & c & Hm & Hq & Ht & Hit & Hck);
      [assumption|lia|lia|exact Hdone|].
    exists m, (trace (time_step_body i cds p) ++ tr0)%list, q, c.
    split; [lia|]. split; [eapply same_operator_trans; eassumption|].
    split; [rewrite Ht; now rewrite app_assoc|]. split.
    + fold (iterations (trace (time_loop fuel (i + 1)
                                 (dadd cur (time_step p)) cds' p'))).
      rewrite Hit, (uint_from_cons i m) by lia. reflexivity.
    + fold (checkpoints (trace (time_loop fuel (i + 1)
                                  (dadd cur (time_step p)) cds' p'))).
      rewrite Hck, (uint_from_cons i (m - 1)) by lia.
      cbn [filter andb]. destruct (i mod _ =? 0); reflexivity.
  - intros _. exists (i + 1), [], p, b.
    split; [lia|]. split; [apply same_operator_refl|].
    rewrite Htr, (Hfiles eq_refl), !app_nil_r.
    replace (i + 1 - 1) with i by lia.
    split; [reflexivity|]. split.
    + rewrite (uint_from_cons i), uint_from_nil by lia. reflexivity.
    + rewrite uint_from_nil by lia. reflexivity.
Qed.

(** Solver failure is fatal and final.  A run with a non-zero save interval
    that does not complete ended with [NoConvergence]; its trace ends with
    the three calls of the failing pass [m - 1] (time advance, right-hand
    side assembly, solver call); passes [0 .. m - 1] were started, and files
    exist exactly for the saved steps among the passes before the failing
    one. *)
Theorem run_stopped_by_solver (p : CDRProblem) (e : Exception) :
  let n := n_time_steps (parameters p) in
  let k := save_interval (parameters p) in
  is_uint n -> k <> 0 ->
  outcome (run p) = Abort e ->
  e = NoConvergence
  /\ exists m tr0 dt t u b ms tol M,
       0 < m <= n
       /\ trace (run p)
          = (tr0 ++ [EvAdvanceTime (m - 1) dt;
                     EvCreateSystemRhs (m - 1) t u b;
                     EvSolve (m - 1) ms tol M (vector_compress b)])%list
       /\ iterations (trace (run p)) = uint_range m
       /\ checkpoints (trace (run p))
          = filter (fun j => j mod k =? 0) (uint_range (m - 1)).
Proof.
  cbv zeta. intros Hn Hk Ho.
  pose proof (prepared_parameters p) as Hp.
  rewrite run_prepared in Ho |- *. cbn [outcome snd trace fst] in *.
  unfold time_iterate in *. split.
  - apply time_loop_abort_cause in Ho. rewrite Hp in Ho.
    destruct Ho as [Ho|[_ Ho]]; [exact Ho|contradiction].
  - pose proof (time_loop_stopped
                  (S (Z.to_nat (n_time_steps (parameters (prepared p))))) 0
                  (start_time (parameters (prepared p)))
                  (vector_reinit (locally_owned_dofs (prepared p)))
                  (prepared p)) as H.
    cbv zeta in H. rewrite Hp in H.
    destruct H as (m & tr0 & q & b & Hm & _ & Ht & Hit & Hck);
      [assumption|unfold is_uint in Hn; lia|lia| |].
    { unfold completed. rewrite Hp in Ho. now rewrite Ho. }
    exists m, (EvCreateSystemMatrix (time_step p) (assembled_matrix p)
                 :: EvPreconditionerInitialize (run_matrix p) :: tr0).
    unfold pass_head in Ht. do 7 eexists.
    split; [exact Hm|]. rewrite Hp.
    split; [rewrite Ht; reflexivity|].
    cbn [iterations checkpoints flat_map app]. rewrite !uint_range_from.
    split; assumption.
Qed.

End RunExtras.

(** ** The run and its reference *)

Section ReferenceExtras.

Context {A : Arith} {B : Backend A}.

Lemma state_from_succ (p : CDRProblem) (k : nat) :
  forall s,
    state_from (S k) p s
    = match state_from k p s with
      | Some s' => next_state p s'
      | None => None
      end.
Proof.
  induction k as [|k IH]; intros s.
  - cbn [state_from]. destruct (next_state p s); reflexivity.
  - change (state_from (S (S k)) p s)
      with (match next_state p s with
            | Some s' => state_from (S k) p s'
            | None => None
            end).
    change (state_from (S k) p s)
      with (match next_state p s with
            | Some s' => state_from k p s'
            | None => None
            end).
    destruct (next_state p s) as [s1|]; [apply IH|reflexivity].
Qed.

Lemma state_from_fails (p : CDRProblem) (k : nat) :
  forall s,
    state_from k p s = None ->
    exists m sm,
      (m < k)%nat /\ state_from m p s = Some sm /\ next_state p sm = None.
Proof.
  induction k as [|k IH]; intros s H; [discriminate|].
  rewrite state_from_succ in H.
  destruct (state_from k p s) as [s'|] eqn:E.
  - exists k, s'. split; [lia|]. split; [exact E|exact H].
  - destruct (IH s E) as (m & sm & Hm & H1 & H2). exists m, sm.
    split; [lia|]. split; assumption.
Qed.

Lemma state_from_stuck (p : CDRProblem) (m : nat) (s sm : LoopState) :
  state_from m p s = Some sm -> next_state p sm = None ->
  forall k, (m < k)%nat -> state_from k p s = None.
Proof.
  intros Hm Hnext k. induction k as [|k IH]; intros Hk; [lia|].
  rewrite state_from_succ.
  destruct (Nat.eq_dec m k) as [<-|Hne].
  - rewrite Hm. exact Hnext.
  - rewrite IH by lia. reflexivity.
Qed.

Lemma next_state_fails (p : CDRProblem) (s : LoopState) :
  next_state p s = None <-> pass_solve p s = None.
Proof.
  unfold next_state. destruct (pass_solve p s); split; congruence.
Qed.

(** Solver failure is the only way a run with a non-zero save interval can
    end early, and it is fatal: the run completes exactly when the solver
    converges in every step (each step's call as [pass_solve] spells it
    out); a run that does not complete ended with [NoConvergence], at the
    first step whose solve failed; the loop never needs more than its
    bound. *)
Theorem run_completes_iff_solver_converges (p : CDRProblem) :
  let n := n_time_steps (parameters p) in
  is_uint n -> save_interval (parameters p) <> 0 ->
  outcome (run p) <> OutOfFuel
  /\ (completed (run p) = true
      <-> forall m s, (m < Z.to_nat n)%nat ->
                      state_after m p = Some s -> pass_solve p s <> None)
  /\ (forall e,
        outcome (run p) = Abort e ->
        e = NoConvergence
        /\ exists m s,
             (m < Z.to_nat n)%nat
             /\ state_after m p = Some s
             /\ gmres_solve (n_dofs (run_dof_handler p))
                  (dmul d_1em6 (l2_norm (pass_rhs p s)))
                  (run_matrix p) (ls_distributed s) (pass_rhs p s)
                  (run_preconditioner p)
                = None).
Proof.
  cbv zeta. intros Hn Hk. pose proof (run_refines p Hn Hk) as H.
  unfold completed.
  destruct (state_after (Z.to_nat (n_time_steps (parameters p))) p)
    as [s|] eqn:Hs.
  - destruct H as (p' & -> & _). split; [discriminate|]. split.
    + split; [|reflexivity]. intros _ m sm Hm Hsm Hfail.
      apply next_state_fails in Hfail.
      pose proof (state_from_stuck p m _ sm Hsm Hfail _ Hm) as Hnone.
      unfold state_after in Hs. congruence.
    + discriminate.
  - rewrite H. split; [discriminate|].
    destruct (state_from_fails p _ _ Hs) as (m & sm & Hm & Hsm & Hfail).
    apply next_state_fails in Hfail. split.
    + split; [discriminate|]. intros Hall. exfalso.
      exact (Hall m sm Hm Hsm Hfail).
    + intros e [= <-]. split; [reflexivity|]. exists m, sm.
      split; [exact Hm|]. split; [exact Hsm|exact Hfail].
Qed.


End ReferenceExtras.

(** ** The end of the run *)

Section EndExtras.

Context {A : Arith} {B : Backend A}.


End EndExtras.


(** The name of a per-process file determines its step and its rank:
    reading the two numbers back from the name gives them, so two files of
    different steps or of different ranks never share a name; and the name
    of a record file is never the name of a per-process file. *)
Theorem piece_name_decodes (i r : Z) :
  is_uint i -> is_uint r ->
  decode_piece_name (piece_name i r) = (i, r)
  /\ (forall i' r', is_uint i' -> is_uint r' ->
                    piece_name i' r' = piece_name i r -> i' = i /\ r' = r)
  /\ (forall i', step_stem i' ++ ".pvtu" <> piece_name i r).
Proof.
  intros Hi Hr.
  split; [now apply piece_name_decode|]. split.
  - intros i' r' Hi' Hr' E. apply (f_equal decode_piece_name) in E.
    rewrite !piece_name_decode in E by assumption. now injection E.
  - intros i' E. rewrite piece_name_shape, manifest_name_shape in E.
    cbn [append] in E. injection E as E.
    apply (f_equal skip_digits) in E.
    rewrite !int_to_string_skip in E. cbn [skip_digits] in E.
    rewrite is_digit_dot in E.
    injection E as E. apply (f_equal skip_digits) in E.
    rewrite int_to_string_skip in E. discriminate.
Qed.

(** ** The files of a run *)

Section FileExtras.

Context {A : Arith} {B : Backend A}.

Lemma main_files (dim P r : Z) (params : Parameters) :
  files_written (trace (main dim P r params))
  = flat_map (step_files P r) (checkpoints (trace (main dim P r params))).
Proof.
  destruct (main_decompose dim P r params)
    as [(e & _ & E)
       |(p & M0 & q & _ & Htr & _ & _ & _ & _ & _ & HP & Hr & Hs & _)].
  - rewrite E. reflexivity.
  - rewrite Htr. cbn [files_written checkpoints flat_map app].
    unfold time_iterate.
    pose proof (time_loop_files
                  (S (Z.to_nat (n_time_steps (parameters q)))) 0
                  (start_time (parameters q))
                  (vector_reinit (locally_owned_dofs q)) q) as H.
    rewrite HP, Hr in H. apply H. exact Hs.
Qed.

(** The saved steps of any run, completed or not, are the multiples of the
    save interval below some bound. *)
Lemma main_checkpoints (dim P r : Z) (params : Parameters) :
  is_uint (n_time_steps params) ->
  exists m,
    0 <= m <= n_time_steps params
    /\ checkpoints (trace (main dim P r params))
       = filter (fun j => j mod save_interval params =? 0) (uint_range m).
Proof.
  intros Hn.
  destruct (main_decompose dim P r params)
    as [(e & _ & E)|(p & M0 & q & _ & Htr & Ho & _ & _ & Hq & _)].
  - exists 0. rewrite E. split; [unfold is_uint in Hn; lia|reflexivity].
  - rewrite Htr. cbn [checkpoints flat_map app]. unfold time_iterate.
    fold (checkpoints
            (trace (time_loop (S (Z.to_nat (n_time_steps (parameters q)))) 0
                              (start_time (parameters q))
                              (vector_reinit (locally_owned_dofs q)) q))).
    destruct (completed
                (time_loop (S (Z.to_nat (n_time_steps (parameters q)))) 0
                           (start_time (parameters q))
                           (vector_reinit (locally_owned_dofs q)) q))
      eqn:Hdone.
    + pose proof (time_loop_iterations
                    (S (Z.to_nat (n_time_steps (parameters q)))) 0
                    (start_time (parameters q))
                    (vector_reinit (locally_owned_dofs q)) q) as H.
      cbv zeta in H. rewrite Hq in *.
      destruct H as (_ & _ & H); [assumption|unfold is_uint in Hn; lia|lia|].
      exists (n_time_steps params). split; [unfold is_uint in Hn; lia|].
      rewrite uint_range_from. now apply H.
    + pose proof (time_loop_stopped
                    (S (Z.to_nat (n_time_steps (parameters q)))) 0
                    (start_time (parameters q))
                    (vector_reinit (locally_owned_dofs q)) q) as H.
      cbv zeta in H. rewrite Hq in *.
      destruct H as (m & _ & _ & _ & Hm & _ & _ & _ & Hck);
        [assumption|unfold is_uint in Hn; lia|lia|assumption|].
      exists (m - 1). split; [lia|]. now rewrite uint_range_from.
Qed.

End FileExtras.

Lemma uint_range_In (m i : Z) : In i (uint_range m) <-> 0 <= i < m.
Proof.
  unfold uint_range. rewrite in_map_iff. split.
  - intros (k & <- & Hk). apply in_seq in Hk. lia.
  - intros H. exists (Z.to_nat i). split; [lia|]. apply in_seq. lia.
Qed.

Lemma uint_range_NoDup (m : Z) : NoDup (uint_range m).
Proof.
  unfold uint_range. apply NoDup_map_NoDup_ForallPairs; [|apply seq_NoDup].
  intros x y _ _ E. lia.
Qed.

(** What identifies a file name: the step read from it, and what follows
    the step. *)
Lemma step_files_keys (P r : Z) (c : Z) (w : FileWrite) :
  0 <= c < 10 ^ 10 ->
  In w (step_files P r c) ->
  parse_decimal 0 (drop 9 (file_name w)) = c.
Proof.
  intros Hc. unfold step_files.
  intros [<-|H].
  - cbn [file_name]. rewrite piece_name_shape. cbn [append drop].
    rewrite int_to_string_parse by assumption.
    cbn [parse_decimal]. now rewrite is_digit_dot.
  - destruct (r =? 0); [|contradiction].
    destruct H as [<-|[]]. cbn [file_name].
    rewrite manifest_name_shape. cbn [append drop].
    rewrite int_to_string_parse by assumption.
    cbn [parse_decimal]. now rewrite is_digit_dot.
Qed.

Lemma step_files_NoDup (P r c : Z) :
  NoDup (map file_name (step_files P r c)).
Proof.
  unfold step_files. destruct (r =? 0); cbn [map file_name].
  - constructor; [|constructor; [intros []|constructor]].
    intros [E|[]]. symmetry in E. revert E.
    rewrite piece_name_shape, manifest_name_shape. cbn [append].
    intros E. injection E as E. apply (f_equal skip_digits) in E.
    rewrite !int_to_string_skip in E. cbn [skip_digits] in E.
    rewrite is_digit_dot in E. injection E as E.
    apply (f_equal skip_digits) in E.
    rewrite int_to_string_skip in E. discriminate.
  - constructor; [intros []|constructor].
Qed.

Lemma flat_map_names_NoDup (P r : Z) (cs : list Z) :
  NoDup cs -> (forall c, In c cs -> 0 <= c < 10 ^ 10) ->
  NoDup (map file_name (flat_map (step_files P r) cs)).
Proof.
  induction 1 as [|c cs Hc Hcs IH]; intros Hb; cbn [flat_map map].
  - constructor.
  - rewrite map_app. apply NoDup_app.
    + apply step_files_NoDup.
    + apply IH. intros d Hd. apply Hb. now right.
    + intros name H1 H2.
      apply in_map_iff in H1. destruct H1 as (w1 & <- & H1).
      apply in_map_iff in H2. destruct H2 as (w2 & E & H2).
      apply in_flat_map in H2. destruct H2 as (d & Hd & H2).
      apply step_files_keys in H1; [|apply Hb; now left].
      apply step_files_keys in H2; [|apply Hb; now right].
      rewrite E, H1 in H2. subst d. contradiction.
Qed.

Section FileTheorems.

Context {A : Arith} {B : Backend A}.

(** No run writes two files of the same name: a checkpoint never overwrites
    an earlier one, nor the record file a per-process file. *)
Theorem file_names_distinct (dim P r : Z) (params : Parameters) :
  is_uint (n_time_steps params) ->
  NoDup (map file_name (files_written (trace (main dim P r params)))).
Proof.
  intros Hn. rewrite main_files.
  destruct (main_checkpoints dim P r params Hn) as (m & Hm & ->).
  apply flat_map_names_NoDup.
  - apply NoDup_filter, uint_range_NoDup.
  - intros c Hc. apply filter_In in Hc. destruct Hc as [Hc _].
    apply uint_range_In in Hc. unfold is_uint, uint_modulus in Hn. lia.
Qed.

(** The record file of a step lists the file of every process: whatever
    the process of a rank [r] below [P] writes at step [i] is named in the
    record file rank 0 writes for step [i], and that file has exactly [P]
    entries. *)
Theorem manifest_lists_every_file (dim dim' P r : Z)
    (params params' : Parameters) (i : Z) (name f : string)
    (names : list string) :
  0 <= r < P ->
  In (PerProcessFile i name) (files_written (trace (main dim P r params))) ->
  In (ManifestFile i f names)
     (files_written (trace (main dim' P 0 params'))) ->
  In name names /\ List.length names = Z.to_nat P.
Proof.
  intros Hr H1 H2. rewrite main_files in H1, H2.
  apply in_flat_map in H1. destruct H1 as (c1 & _ & H1).
  apply in_flat_map in H2. destruct H2 as (c2 & _ & H2).
  unfold step_files in H1, H2.
  assert (E1 : name = piece_name i r).
  { destruct H1 as [H1|H1]; [now injection H1 as <- <-|].
    destruct (r =? 0); [|contradiction].
    destruct H1 as [H1|[]]. discriminate. }
  assert (E2 : names = map (piece_name i) (uint_range P)).
  { destruct H2 as [H2|H2]; [discriminate|].
    change (0 =? 0) with true in H2. cbv iota in H2.
    destruct H2 as [H2|[]]. now injection H2 as <- <- <-. }
  subst name names. split.
  - apply in_map, uint_range_In. exact Hr.
  - now rewrite length_map, uint_range_length.
Qed.

End FileTheorems.

(** * Concrete runs *)

#[local] Existing Instance Stub.backend.

(** The stand-in constructor builds [Stub.example_problem]. *)
Example example_constructed :
  CDRProblem_ctor (B := Stub.backend) 2 3 0 (Stub.example_parameters "-y,x")
  = ([], Ok Stub.example_problem).
Proof. reflexivity. Qed.

Example example_files :
  files_written
    (trace (main (B := Stub.backend) 2 3 0 (Stub.example_parameters "-y,x")))
  = [PerProcessFile 0 "solution-0.0000.vtu";
     ManifestFile 0 "solution-0.pvtu"
       ["solution-0.0000.vtu"; "solution-0.0001.vtu"; "solution-0.0002.vtu"];
     PerProcessFile 3 "solution-3.0000.vtu";
     ManifestFile 3 "solution-3.pvtu"
       ["solution-3.0000.vtu"; "solution-3.0001.vtu"; "solution-3.0002.vtu"];
     PerProcessFile 6 "solution-6.0000.vtu";
     ManifestFile 6 "solution-6.pvtu"
       ["solution-6.0000.vtu"; "solution-6.0001.vtu"; "solution-6.0002.vtu"]].
Proof. vm_compute. reflexivity. Qed.

Example example_files_rank_2 :
  files_written
    (trace (main (B := Stub.backend) 2 3 2 (Stub.example_parameters "-y,x")))
  = [PerProcessFile 0 "solution-0.0002.vtu";
     PerProcessFile 3 "solution-3.0002.vtu";
     PerProcessFile 6 "solution-6.0002.vtu"].
Proof. vm_compute. reflexivity. Qed.

Example example_split :
  map (fun s => outcome (split_convection_field (B := Stub.backend) s))
      ["-y,x"; "x"; "a,b,c"; EmptyString; "ab,"]
  = [Ok ["-y"; "x"]; Ok ["x"; "x"]; Ok ["a"; "b,c"];
     Ok [EmptyString; EmptyString]; Ok ["ab"; EmptyString]].
Proof. vm_compute. reflexivity. Qed.

(** C1, as stated, fails: ["x"] has no comma, and the constructor neither
    aborts nor notices; it builds the convection field [(x, x)]. *)
Lemma no_comma_field_constructs :
  has_comma "x" = false
  /\ exists p,
       CDRProblem_ctor (B := Stub.backend) 2 1 0 (Stub.example_parameters "x")
       = ([], Ok p)
       /\ fp_expressions (convection_function p) = ["x"; "x"].
Proof. split; [reflexivity|]. eexists. split; reflexivity. Qed.

Lemma convection_field_split_witness :
  size "-y,x" < npos
  /\ completed (CDRProblem_ctor (B := Stub.backend) 2 1 0
                                (Stub.example_parameters "-y,x")) = true.
Proof.
  split; [reflexivity|].
  destruct (convection_field_split (B := Stub.backend) 1 0
              (Stub.example_parameters "-y,x"))
    as (first & second & _ & _ & Hc & E); [reflexivity|].
  rewrite E. destruct (Hc "-y" "x" eq_refl eq_refl) as [-> ->]. reflexivity.
Defined.

Lemma dimension_check_witness :
  CDRProblem_ctor (B := Stub.backend) 3 1 0 (Stub.example_parameters "-y,x")
  = ([], Abort ExcNotImplemented)
  /\ completed (CDRProblem_ctor (B := Stub.backend) 2 1 0
                                (Stub.example_parameters "-y,x")) = true.
Proof.
  split.
  - apply (proj1 (dimension_check 3 1 0 (Stub.example_parameters "-y,x"))).
    discriminate.
  - apply (proj2 (proj2 (dimension_check 2 1 0
                           (Stub.example_parameters "-y,x")) eq_refl)
             "-y" "x"); reflexivity.
Defined.

(** C2, as stated, fails: face 2 of the coarse ring is a radial line between
    two cells, not on the boundary, and it carries the manifold id after the
    loop. *)
Lemma interior_face_tagged :
  touched (tria_cells (tagged_coarse_mesh Stub.example_problem)) 2 = true
  /\ nth_error (tria_faces (tagged_coarse_mesh Stub.example_problem)) 2
     = Some {| face_at_boundary := false; face_manifold_id := manifold_id |}.
Proof. split; vm_compute; reflexivity. Qed.

Lemma manifold_ids_on_all_faces_witness :
  exists f,
    nth_error (tria_faces (tagged_coarse_mesh Stub.example_problem)) 2
    = Some f
    /\ face_at_boundary f = false
    /\ face_manifold_id f = manifold_id.
Proof.
  exists {| face_at_boundary := false; face_manifold_id := manifold_id |}.
  assert (E : nth_error
                (tria_faces (tagged_coarse_mesh Stub.example_problem)) 2
              = Some {| face_at_boundary := false;
                        face_manifold_id := manifold_id |})
    by (vm_compute; reflexivity).
  split; [exact E|]. split; [reflexivity|].
  refine (proj1 (proj2 (proj2 (manifold_ids_on_all_faces Stub.example_problem))
                   2%nat _ _ E)).
  apply touched_spec. vm_compute. reflexivity.
Defined.

Lemma checkpoint_schedule_witness :
  checkpoints
    (trace (main (B := Stub.backend) 2 3 0 (Stub.example_parameters "-y,x")))
  = [0; 3; 6]
  /\ ceil_div 7 3 = 3.
Proof.
  destruct (checkpoint_schedule (B := Stub.backend) 2 3 0
              (Stub.example_parameters "-y,x")) as (_ & H & _).
  - unfold is_uint, uint_modulus. cbn. lia.
  - reflexivity.
  - vm_compute. reflexivity.
  - rewrite H. split; reflexivity.
Defined.

(** The binary64 stand-in constructor builds [Stub.far_problem]. *)
Example far_constructed :
  CDRProblem_ctor (B := Stub.generic binary64_arith) 2 1 0
                  Stub.far_parameters
  = ([], Ok Stub.far_problem).
Proof. reflexivity. Qed.

(** Its run completes, and ends with the solution the four steps of the
    reference give. *)
Example far_run :
  match state_after 4 Stub.far_problem, outcome (run Stub.far_problem) with
  | Some s, Ok p' =>
      nth_error (ls_solution s) 0 = Some (0, 4e16%float)
      /\ nth_error (locally_relevant_solution p') 0 = Some (0, 4e16%float)
  | _, _ => False
  end.
Proof. vm_compute. split; reflexivity. Qed.

Lemma matrix_assembled_once_witness :
  is_uint (n_time_steps (parameters Stub.far_problem))
  /\ save_interval (parameters Stub.far_problem) <> 0
  /\ exists s p',
       state_after 4 Stub.far_problem = Some s
       /\ outcome (run Stub.far_problem) = Ok p'
       /\ system_matrix p'
          = matrix_compress
              (create_system_matrix
                 (run_dof_handler Stub.far_problem) 4
                 (convection_function Stub.far_problem)
                 Stub.far_parameters 0.5%float
                 (run_constraints Stub.far_problem)
                 (matrix_reinit (run_owned_dofs Stub.far_problem)
                                (run_sparsity Stub.far_problem)))
       /\ locally_relevant_solution p' = ls_solution s.
Proof.
  assert (Hn : is_uint (n_time_steps (parameters Stub.far_problem)))
    by (unfold is_uint, uint_modulus; cbn; lia).
  assert (Hk : save_interval (parameters Stub.far_problem) <> 0)
    by discriminate.
  split; [exact Hn|]. split; [exact Hk|].
  pose proof (proj2 (proj2 (proj2 (proj2 (proj2
                (matrix_assembled_once Stub.far_problem))))) Hn Hk) as H.
  change (Z.to_nat (n_time_steps (parameters Stub.far_problem)))
    with 4%nat in H.
  destruct (state_after 4 Stub.far_problem) as [s|];
    [|vm_compute in H; discriminate].
  destruct H as (p' & Ho & Hh). exists s, p'.
  split; [reflexivity|]. split; [exact Ho|].
  unfold holds_state in Hh. split; [|tauto].
  destruct Hh as (_ & _ & _ & _ & _ & _ & _ & _ & _ & -> & _). reflexivity.
Defined.

Lemma solver_control_witness :
  is_uint (n_time_steps (parameters Stub.far_problem))
  /\ save_interval (parameters Stub.far_problem) <> 0
  /\ (exists tol M rhs,
        In (EvSolve 0 20 tol M rhs) (trace (run Stub.far_problem))
        /\ tol = dmul d_1em6
                      (l2_norm (Backend := Stub.generic binary64_arith) rhs)
        /\ rhs = vector_compress (Backend := Stub.generic binary64_arith)
                   (pass_assembled Stub.far_problem
                                   (initial_state Stub.far_problem)))
  /\ exists s p',
       state_after 4 Stub.far_problem = Some s
       /\ outcome (run Stub.far_problem) = Ok p'
       /\ locally_relevant_solution p' = ls_solution s
       /\ system_rhs p' = ls_rhs s.
Proof.
  assert (Hn : is_uint (n_time_steps (parameters Stub.far_problem)))
    by (unfold is_uint, uint_modulus; cbn; lia).
  assert (Hk : save_interval (parameters Stub.far_problem) <> 0)
    by discriminate.
  split; [exact Hn|]. split; [exact Hk|].
  destruct (solver_control Stub.far_problem) as (_ & _ & Hcall & _ & Hend).
  split.
  - destruct (run_first_solve Stub.far_problem eq_refl)
      as (ms & tol & M & rhs & Hin).
    destruct (Hcall Hn _ _ _ _ _ Hin)
      as (_ & s & Hs & _ & Hrhs & Hms & Htol & _).
    injection Hs as <-. exists tol, M, rhs.
    split; [|split; [exact Htol|exact Hrhs]].
    rewrite Hms in Hin. exact Hin.
  - specialize (Hend Hn Hk).
    change (Z.to_nat (n_time_steps (parameters Stub.far_problem)))
      with 4%nat in Hend.
    destruct (state_after 4 Stub.far_problem) as [s|];
      [|vm_compute in Hend; discriminate].
    destruct Hend as (p' & Ho & Hh). exists s, p'.
    split; [reflexivity|]. split; [exact Ho|].
    unfold holds_state in Hh. tauto.
Defined.

Lemma fixed_step_loop_witness :
  iterations
    (trace (main (B := Stub.backend) 2 3 0 (Stub.example_parameters "-y,x")))
  = [0; 1; 2; 3; 4; 5; 6].
Proof.
  destruct (fixed_step_loop (B := Stub.backend) 2 3 0
              (Stub.example_parameters "-y,x")) as (_ & _ & _ & _ & H).
  - unfold is_uint, uint_modulus. cbn. lia.
  - destruct H as (H & _); [vm_compute; reflexivity|].
    rewrite H. reflexivity.
Defined.

(** C7, as stated, fails in binary64.  On [1e16, 1e16 + 2] with four steps
    the step size is [0.5] and [1e16 + 0.5] rounds to [1e16]: all four
    assemblies use the forcing function at [start_time] itself.  On the time
    range of [main], pass 5 assembles at [0.060000000000000005], which is
    not [start_time + 6 * dt = 0.059999999999999998]. *)
Lemma forcing_time_rounds :
  let far :=
    main (B := Stub.generic binary64_arith) 2 1 0 Stub.far_parameters in
  let shipped :=
    main (B := Stub.generic binary64_arith) 2 1 0 Stub.shipped_parameters in
  let dt :=
    ddiv (dsub (stop_time Stub.shipped_parameters)
               (start_time Stub.shipped_parameters))
         (d_of_uint (n_time_steps Stub.shipped_parameters)) in
  start_time Stub.far_parameters <> stop_time Stub.far_parameters
  /\ completed far = true
  /\ map (fun a => snd (fst a)) (rhs_assemblies (trace far))
     = [start_time Stub.far_parameters; start_time Stub.far_parameters;
        start_time Stub.far_parameters; start_time Stub.far_parameters]
  /\ nth_error (map (fun a => snd (fst a)) (rhs_assemblies (trace shipped)))
               5
     = Some 0x1.eb851eb851eb9p-5%float
  /\ dadd (start_time Stub.shipped_parameters) (dmul (d_of_uint 6) dt)
     = 0x1.eb851eb851eb8p-5%float
  /\ 0x1.eb851eb851eb9p-5%float <> 0x1.eb851eb851eb8p-5%float.
Proof.
  cbv zeta. split; [|split; [|split; [|split; [|split]]]].
  - intros H. apply (f_equal Prim2SF) in H. vm_compute in H. discriminate.
  - vm_compute. reflexivity.
  - vm_compute. reflexivity.
  - vm_compute. reflexivity.
  - vm_compute. reflexivity.
  - intros H. apply (f_equal Prim2SF) in H. vm_compute in H. discriminate.
Qed.

Lemma forcing_time_advanced_witness :
  is_uint (n_time_steps Stub.shipped_parameters)
  /\ exists u,
       nth_error
         (rhs_assemblies
            (trace (main (B := Stub.generic binary64_arith) 2 1 0
                         Stub.shipped_parameters))) 5
       = Some (5, 0x1.eb851eb851eb9p-5%float, u).
Proof.
  assert (Hn : is_uint (n_time_steps Stub.shipped_parameters))
    by (unfold is_uint, uint_modulus; cbn; lia).
  split; [exact Hn|].
  destruct (nth_error
              (rhs_assemblies
                 (trace (main (B := Stub.generic binary64_arith) 2 1 0
                              Stub.shipped_parameters))) 5)
    as [[[i t] u]|] eqn:E; [|vm_compute in E; discriminate].
  exists u.
  destruct (proj1 (proj2 (forcing_time_advanced
                            (B := Stub.generic binary64_arith) 2 1 0
                            Stub.shipped_parameters Hn)) _ _ _ _ E)
    as (-> & _ & ->).
  reflexivity.
Defined.


(** C8, as stated, fails: the files of step 0 are [solution-0.0000.vtu]
    and [solution-0.pvtu]; no file is named [solution-0.0000] or
    [solution-0]. *)
Lemma checkpoint_names_carry_extensions :
  let files :=
    files_written
      (trace (main (B := Stub.backend) 2 3 0
                   (Stub.example_parameters "-y,x"))) in
  firstn 2 files
  = [PerProcessFile 0 "solution-0.0000.vtu";
     ManifestFile 0 "solution-0.pvtu"
       ["solution-0.0000.vtu"; "solution-0.0001.vtu"; "solution-0.0002.vtu"]]
  /\ existsb (fun w => String.eqb (file_name w) "solution-0.0000"
                       || String.eqb (file_name w) "solution-0") files
     = false.
Proof. split; vm_compute; reflexivity. Qed.

Lemma checkpoint_files_witness :
  is_uint 12
  /\ 0 <= 7 < 10000
  /\ files_written
       (trace (main (B := Stub.backend) 2 8 7
                    (Stub.example_parameters "-y,x")))
     = [PerProcessFile 0 "solution-0.0007.vtu";
        PerProcessFile 3 "solution-3.0007.vtu";
        PerProcessFile 6 "solution-6.0007.vtu"]
  /\ int_to_string 7 4 = "0007"
  /\ decode_piece_name "solution-12.0007.vtu" = (12, 7).
Proof.
  assert (Hi : is_uint 12) by (unfold is_uint, uint_modulus; lia).
  assert (Hr : 0 <= 7 < 10000) by lia.
  split; [exact Hi|]. split; [exact Hr|].
  destruct (checkpoint_files (B := Stub.backend) 2 8 7
              (Stub.example_parameters "-y,x")) as (Hfiles & Hname).
  split; [rewrite Hfiles; vm_compute; reflexivity|].
  split; [reflexivity|].
  exact (proj1 (proj2 (proj2 (Hname 12 7 Hi Hr)))).
Defined.

Lemma initial_solution_zero_witness :
  let zero := map (fun i => (i, 0%float)) (map Z.of_nat (seq 0 20)) in
  0 < n_time_steps Stub.far_parameters
  /\ outcome (CDRProblem_ctor (B := Stub.generic binary64_arith) 2 1 0
                              Stub.far_parameters)
     = Ok Stub.far_problem
  /\ In (EvCreateSystemRhs (B := Stub.generic binary64_arith) 0
           1e16%float zero
           (map (fun i => (i, 1e16%float)) (map Z.of_nat (seq 0 20))))
        (trace (main (B := Stub.generic binary64_arith) 2 1 0
                     Stub.far_parameters)).
Proof.
  cbv zeta. split; [reflexivity|]. split; [reflexivity|].
  pose proof (proj2 (proj2 (initial_solution_zero
                              (B := Stub.generic binary64_arith) 2 1 0
                              Stub.far_parameters))
                Stub.far_problem eq_refl) as H.
  cbv zeta in H. destruct H as (_ & _ & Hfirst & _).
  exact (proj1 (Hfirst eq_refl)).
Defined.

(** ** Further properties, on concrete runs *)

Lemma split_rejoin_witness :
  exists first second,
    split_convection_field (B := Stub.backend) "a,b,c"
    = ([], Ok [first; second])
    /\ has_comma first = false
    /\ "a,b,c" = first ++ String "," second.
Proof.
  destruct (split_rejoin (B := Stub.backend) "a,b,c" eq_refl)
    as (first & second & E & Hc & H).
  exists first, second. split; [exact E|]. split; [exact Hc|].
  apply H. reflexivity.
Defined.

Lemma ctor_failure_modes_witness :
  outcome (CDRProblem_ctor (B := Stub.backend) 2 1 0
                           (Stub.example_parameters ","))
  = Abort ExcParseError
  /\ exists first second,
       split_convection_field (B := Stub.backend) ","
       = ([], Ok [first; second])
       /\ expressions_parse first second (Stub.example_parameters ",")
          = false.
Proof.
  assert (H : outcome (CDRProblem_ctor (B := Stub.backend) 2 1 0
                                       (Stub.example_parameters ","))
              = Abort ExcParseError) by reflexivity.
  split; [exact H|].
  destruct (ctor_failure_modes (B := Stub.backend) 2 1 0
              (Stub.example_parameters ",") ExcParseError eq_refl H)
    as [[Hd _]|(_ & _ & Hx)]; [contradiction Hd; reflexivity|exact Hx].
Defined.

Lemma run_zero_steps_witness :
  n_time_steps (parameters Stub.idle_problem) = 0
  /\ List.length (trace (run Stub.idle_problem)) = 2%nat
  /\ completed (run Stub.idle_problem) = true.
Proof.
  split; [reflexivity|].
  destruct (run_zero_steps Stub.idle_problem eq_refl) as (-> & _).
  split; reflexivity.
Defined.

Lemma run_stopped_by_solver_witness :
  is_uint (n_time_steps (parameters Stub.strained_problem))
  /\ save_interval (parameters Stub.strained_problem) <> 0
  /\ outcome (run Stub.strained_problem) = Abort NoConvergence
  /\ exists m,
       0 < m <= 4
       /\ iterations (trace (run Stub.strained_problem)) = uint_range m
       /\ checkpoints (trace (run Stub.strained_problem))
          = filter (fun j => j mod 1 =? 0) (uint_range (m - 1)).
Proof.
  assert (Hn : is_uint (n_time_steps (parameters Stub.strained_problem)))
    by (unfold is_uint, uint_modulus; cbn; lia).
  assert (Hk : save_interval (parameters Stub.strained_problem) <> 0)
    by discriminate.
  assert (H : outcome (run Stub.strained_problem) = Abort NoConvergence)
    by (vm_compute; reflexivity).
  split; [exact Hn|]. split; [exact Hk|]. split; [exact H|].
  destruct (run_stopped_by_solver Stub.strained_problem NoConvergence
              Hn Hk H)
    as (_ & m & tr0 & dt & t & u & b & ms & tol & M & Hm & _ & Hit & Hck).
  exists m. split; [exact Hm|]. split; [exact Hit|exact Hck].
Defined.

Lemma run_completes_iff_solver_converges_witness :
  is_uint (n_time_steps (parameters Stub.strained_problem))
  /\ save_interval (parameters Stub.strained_problem) <> 0
  /\ outcome (run Stub.strained_problem) = Abort NoConvergence
  /\ exists m s,
       (m < 4)%nat
       /\ state_after m Stub.strained_problem = Some s
       /\ pass_solve Stub.strained_problem s = None.
Proof.
  assert (Hn : is_uint (n_time_steps (parameters Stub.strained_problem)))
    by (unfold is_uint, uint_modulus; cbn; lia).
  assert (Hk : save_interval (parameters Stub.strained_problem) <> 0)
    by discriminate.
  assert (H : outcome (run Stub.strained_problem) = Abort NoConvergence)
    by (vm_compute; reflexivity).
  split; [exact Hn|]. split; [exact Hk|]. split; [exact H|].
  exact (proj2 (proj2 (proj2 (run_completes_iff_solver_converges
                                Stub.strained_problem Hn Hk))
                  NoConvergence H)).
Defined.



Lemma piece_name_decodes_witness :
  decode_piece_name "solution-12.0007.vtu" = (12, 7)
  /\ "solution-12.pvtu" <> "solution-12.0007.vtu".
Proof.
  assert (Hi : is_uint 12) by (unfold is_uint, uint_modulus; lia).
  assert (Hr : is_uint 7) by (unfold is_uint, uint_modulus; lia).
  destruct (piece_name_decodes 12 7 Hi Hr) as (Hd & _ & Hm).
  split; [exact Hd|exact (Hm 12)].
Defined.

Lemma file_names_distinct_witness :
  NoDup
    (map file_name
         (files_written
            (trace (main (B := Stub.backend) 2 3 0
                         (Stub.example_parameters "-y,x"))))).
Proof.
  apply (file_names_distinct (B := Stub.backend) 2 3 0
           (Stub.example_parameters "-y,x")).
  unfold is_uint, uint_modulus. cbn. lia.
Defined.

Lemma manifest_lists_every_file_witness :
  In "solution-0.0002.vtu"
     ["solution-0.0000.vtu"; "solution-0.0001.vtu"; "solution-0.0002.vtu"]
  /\ List.length
       ["solution-0.0000.vtu"; "solution-0.0001.vtu"; "solution-0.0002.vtu"]
     = Z.to_nat 3.
Proof.
  apply (manifest_lists_every_file (B := Stub.backend) 2 2 3 2
           (Stub.example_parameters "-y,x")
           (Stub.example_parameters "-y,x") 0
           "solution-0.0002.vtu" "solution-0.pvtu").
  - lia.
  - apply (nth_error_In _ 0). vm_compute. reflexivity.
  - apply (nth_error_In _ 1). vm_compute. reflexivity.
Defined.
